(** * Headwind: inline-style compiler (parser, atomic-class compiler,
      hasher, stylesheet accumulator, per-node hook)

    A shallow embedding of the TypeScript module and the properties of it
    that its specification states.

    - JavaScript strings are sequences of UTF-16 code units; they are
      modelled as lists of integers, one per code unit.  Indices are
      integers as in the source, so that the [-1] returned by [search] and
      [indexOf] and the negative arguments of [slice] behave as they do
      in JavaScript.
    - A function of the module that logs or may throw returns in [M]: the
      lines written on the console, and a value or the exception thrown.
    - [parse] is recursive without bound in the source.  Its model takes
      the depth the call stack still has room for; where the room is used
      up the engine throws a [RangeError] (calls are not optimised away,
      as on V8, the engine of Deno).
    - The shared [Map<string, Set<string>>] iterates in insertion order,
      which the text of the stylesheet depends on; it is modelled as an
      association list, passed in and out of the functions that change
      it. *)

From Stdlib Require Import ZArith List String Ascii Bool Lia.
Import ListNotations.

Local Open Scope Z_scope.

(** ** JavaScript strings and the string methods the module calls *)

Module JS.

Definition jsstring := list Z.

(** A source-code literal: every character of the literals of this module
    is ASCII, hence one code unit. *)
Definition lit (s : string) : jsstring :=
  map (fun a => Z.of_N (N_of_ascii a)) (list_ascii_of_string s).

Definition unit_eqb (a b : Z) : bool := Z.eqb a b.

Fixpoint eqb (a b : jsstring) : bool :=
  match a, b with
  | [], [] => true
  | x :: a', y :: b' => unit_eqb x y && eqb a' b'
  | _, _ => false
  end.

Definition len (s : jsstring) : Z := Z.of_nat (List.length s).

(** [WhiteSpace] and [LineTerminator] code points, the ones
    [String.prototype.trim] strips. *)
Definition isWhiteSpace (c : Z) : bool :=
  ((9 <=? c) && (c <=? 13)) || (c =? 32) || (c =? 160) || (c =? 5760)
  || ((8192 <=? c) && (c <=? 8202)) || (c =? 8232) || (c =? 8233)
  || (c =? 8239) || (c =? 8287) || (c =? 12288) || (c =? 65279).

Fixpoint trimStart (s : jsstring) : jsstring :=
  match s with
  | c :: s' => if isWhiteSpace c then trimStart s' else s
  | [] => []
  end.

Definition trimEnd (s : jsstring) : jsstring := rev (trimStart (rev s)).

(** [s.trim()] *)
Definition trim (s : jsstring) : jsstring := trimEnd (trimStart s).

(** Clamping of a relative index, as [slice] does it. *)
Definition relindex (n : Z) (i : Z) : Z :=
  if i <? 0 then Z.max (n + i) 0 else Z.min i n.

(** [s.slice(start, end)] *)
Definition slice (s : jsstring) (start stop : Z) : jsstring :=
  let from := relindex (len s) start in
  let to := relindex (len s) stop in
  firstn (Z.to_nat (to - from)) (skipn (Z.to_nat from) s).

(** [s.slice(start)] *)
Definition sliceFrom (s : jsstring) (start : Z) : jsstring :=
  skipn (Z.to_nat (relindex (len s) start)) s.

(** Index of the first code unit satisfying [p], or [-1]. *)
Fixpoint findIndex (p : Z -> bool) (s : jsstring) : Z :=
  match s with
  | [] => -1
  | c :: s' =>
      if p c then 0
      else let i := findIndex p s' in if i <? 0 then -1 else i + 1
  end.

(** [s.indexOf(c)] for a one-character string [c]. *)
Definition indexOfChar (c : Z) (s : jsstring) : Z := findIndex (Z.eqb c) s.

(** [s[i]]; [None] is [undefined]. *)
Definition at_ (s : jsstring) (i : Z) : option Z :=
  if i <? 0 then None else nth_error s (Z.to_nat i).

(** [s.split(c)] for a one-character separator [c]: the pieces between
    all occurrences of [c].  The result always has a first element, so it
    is returned as that element and the list of the others. *)
Fixpoint split (c : Z) (s : jsstring) : jsstring * list jsstring :=
  match s with
  | [] => ([], [])
  | x :: s' =>
      let '(h, t) := split c s' in
      if x =? c then ([], h :: t) else (x :: h, t)
  end.

(** [a.join(sep)] on an array of strings. *)
Fixpoint join (sep : jsstring) (l : list jsstring) : jsstring :=
  match l with
  | [] => []
  | [x] => x
  | x :: l' => x ++ sep ++ join sep l'
  end.

(** [s.startsWith(p)] *)
Fixpoint startsWith (p s : jsstring) : bool :=
  match p, s with
  | [], _ => true
  | x :: p', y :: s' => (x =? y) && startsWith p' s'
  | _ :: _, [] => false
  end.

(** [s.indexOf(p)] as a position, [None] when [p] does not occur. *)
Fixpoint indexOf (p s : jsstring) : option nat :=
  if startsWith p s then Some O
  else match s with
       | [] => None
       | _ :: s' => option_map S (indexOf p s')
       end.

(** [s.includes(p)] *)
Definition includes (p s : jsstring) : bool :=
  match indexOf p s with Some _ => true | None => false end.

(** [GetSubstitution] for a string pattern: there are no captures, so the
    only replacement patterns that expand are [$$], [$&], [$`] and [$'];
    every other [$] stands for itself. *)
Fixpoint getSubstitution (matched before after repl : jsstring) : jsstring :=
  match repl with
  | 36 :: ((c :: r) as r') =>
      if c =? 36 then 36 :: getSubstitution matched before after r
      else if c =? 38 then matched ++ getSubstitution matched before after r
      else if c =? 96 then before ++ getSubstitution matched before after r
      else if c =? 39 then after ++ getSubstitution matched before after r
      else 36 :: getSubstitution matched before after r'
  | x :: r => x :: getSubstitution matched before after r
  | [] => []
  end.

(** [s.replace(pattern, replacement)] with both arguments strings: only
    the first occurrence is replaced, and the replacement goes through
    [GetSubstitution]. *)
Definition replace (s pattern replacement : jsstring) : jsstring :=
  match indexOf pattern s with
  | None => s
  | Some i =>
      let before := firstn i s in
      let after := skipn (i + List.length pattern) s in
      before ++ getSubstitution pattern before after replacement ++ after
  end.

(** Surrogate code units. *)
Definition isLeadSurrogate (c : Z) : bool := (55296 <=? c) && (c <=? 56319).
Definition isTrailSurrogate (c : Z) : bool := (56320 <=? c) && (c <=? 57343).

(** [[...s]]: the string iterator yields one string per code point, a
    surrogate pair staying together. *)
Fixpoint spread (s : jsstring) : list jsstring :=
  match s with
  | [] => []
  | hi :: s' =>
      match s' with
      | lo :: s'' =>
          if isLeadSurrogate hi && isTrailSurrogate lo
          then [hi; lo] :: spread s''
          else [hi] :: spread s'
      | [] => [[hi]]
      end
  end.

(** [char.charCodeAt(0)] on a non-empty string. *)
Definition charCodeAt0 (char : jsstring) : Z :=
  match char with c :: _ => c | [] => 0 end.

(** [char.codePointAt(0)]: the code point a one-character string encodes. *)
Definition codePointAt0 (char : jsstring) : Z :=
  match char with
  | hi :: lo :: _ =>
      if isLeadSurrogate hi && isTrailSurrogate lo
      then (hi - 55296) * 1024 + (lo - 56320) + 65536
      else hi
  | c :: _ => c
  | [] => 0
  end.

(** 32-bit conversions and the two bit operators of [hash]. *)
Definition toUint32 (x : Z) : Z := x mod 2 ^ 32.

Definition toInt32 (x : Z) : Z :=
  let u := toUint32 x in if u <? 2 ^ 31 then u else u - 2 ^ 32.

(** [a & b] *)
Definition and_ (a b : Z) : Z := Z.land (toInt32 a) (toInt32 b).

(** [a >>> n] *)
Definition ushr (a n : Z) : Z := Z.shiftr (toUint32 a) (Z.land (toUint32 n) 31).

End JS.

Import JS.

Notation "'js' s" := (lit s%string) (at level 1, s at level 0, only parsing).

(** ** Types *)

(** One element of [ParsedCSS].  The declared type is
    [[string, string | Array<[string, string]>]]; at run time a
    declaration is whatever [split(':').map(trim)] returned, an array of
    one or more strings, and a nested rule is a selector fragment with
    whatever [parse] returned for its body. *)
#[warnings="-register-all"]
Inductive node : Type :=
  | Decl (key : jsstring) (rest : list jsstring)
  | Rule (fragment : jsstring) (properties : list node).

Definition ParsedCSS := list node.

Record rule : Type := mkRule { ruleBody : jsstring; selector : jsstring }.

Record CompiledCSS : Type := mkCompiled {
  classes : list jsstring;
  customProperties : list node;
  rules : list rule
}.

(** [Map<string, Set<string>>]: both the map and its sets iterate in
    insertion order, so the map is a list of entries in the order their
    keys were first set, and each set the list of its members in the order
    they were first added. *)
Definition Stylesheet := list (jsstring * list jsstring).

(** What the module writes on the console. *)
Inductive diagnostic : Type :=
  | AssertionFailed (message argument : jsstring)
  | Warning (message : jsstring).

(** What the module, or the engine under it, can throw. *)
Inductive exn : Type :=
  | RangeError                 (* call stack exhausted *)
  | Error (message : jsstring).

Inductive completion (A : Type) : Type :=
  | Normal (a : A)
  | Throw (e : exn).
Arguments Normal {A} a.
Arguments Throw {A} e.

(** A computation: the lines it logged and how it completed. *)
Definition M (A : Type) : Type := (list diagnostic * completion A)%type.

Definition ret {A} (a : A) : M A := ([], Normal a).

Definition throw {A} (e : exn) : M A := ([], Throw e).

Definition bind {A B} (m : M A) (f : A -> M B) : M B :=
  match m with
  | (l, Normal a) => let '(l', c) := f a in (l ++ l', c)
  | (l, Throw e) => (l, Throw e)
  end.

Notation "x <- m ;; k" := (bind m (fun x => k))
  (at level 61, m at next level, right associativity).
Notation "m ;;; k" := (bind m (fun _ => k))
  (at level 61, right associativity).

(** [console.assert(condition, message, argument)]: logs when the
    condition is false, and goes on in both cases. *)
Definition consoleAssert (condition : bool) (message argument : jsstring) : M unit :=
  if condition then ret tt else ([AssertionFailed message argument], Normal tt).

Definition consoleWarn (message : jsstring) : M unit := ([Warning message], Normal tt).

(** ** Shared state *)

Definition placeholder : jsstring :=
  js "ZTc5OGY2MDUtMTFkNy00ODJmLWI4NmMtZjExYzA5MzdiZjc5".

(** The one-character string ['\n']. *)
Definition newline : jsstring := [10].

(** ** Helper functions *)

Fixpoint assocGet (stylesheet : Stylesheet) (ruleBody : jsstring) : option (list jsstring) :=
  match stylesheet with
  | [] => None
  | (k, v) :: rest => if JS.eqb k ruleBody then Some v else assocGet rest ruleBody
  end.

(** [selectors.add(selector)] *)
Definition setAdd (selectors : list jsstring) (selector : jsstring) : list jsstring :=
  if existsb (JS.eqb selector) selectors then selectors else selectors ++ [selector].

(** The entry of [ruleBody] is the set object itself: adding to it
    changes the entry in place. *)
Fixpoint addToEntry (stylesheet : Stylesheet) (ruleBody selector : jsstring) : Stylesheet :=
  match stylesheet with
  | [] => []
  | (k, v) :: rest =>
      if JS.eqb k ruleBody then (k, setAdd v selector) :: rest
      else (k, v) :: addToEntry rest ruleBody selector
  end.

Definition addRule (stylesheet : Stylesheet) (ruleBody selector : jsstring) : Stylesheet :=
  match assocGet stylesheet ruleBody with
  | None => stylesheet ++ [(ruleBody, [selector])]
  | Some _ => addToEntry stylesheet ruleBody selector
  end.

Definition stringifyStylesheet (stylesheet : Stylesheet) : jsstring :=
  let rulesArray := stylesheet in
  let rulesStrings :=
    map (fun '(ruleBody, selectors) =>
           let selectorsString := join (js ", ") selectors in
           let stringifiedRule := replace ruleBody placeholder selectorsString in
           stringifiedRule) rulesArray in
  join newline rulesStrings.

(** [String(tuple)] for an element of a [ParsedCSS]: an array converts
    to its elements joined by a comma. *)
Fixpoint toString (tuple : node) : jsstring :=
  match tuple with
  | Decl key rest => join (js ",") (key :: rest)
  | Rule fragment properties =>
      join (js ",") [fragment; join (js ",") (map toString properties)]
  end.

(** [tuple.join(': ')] *)
Definition joinTuple (tuple : node) : jsstring :=
  match tuple with
  | Decl key rest => join (js ": ") (key :: rest)
  | Rule fragment properties =>
      join (js ": ") [fragment; join (js ",") (map toString properties)]
  end.

Definition stringifyProperties (properties : ParsedCSS) : jsstring :=
  join (js "; ") (map joinTuple properties).

Definition isNested (tuple : node) : bool :=
  match tuple with Rule _ _ => true | Decl _ _ => false end.

Definition isSimple (propertyTuple : node) : bool :=
  Bool.eqb (isNested propertyTuple) false.

(** [tuple[0]] *)
Definition first (tuple : node) : jsstring :=
  match tuple with Decl key _ => key | Rule fragment _ => fragment end.

Definition isCustomProperty (property : node) : bool :=
  startsWith (js "--") (first property).

Definition isNormalProperty (property : node) : bool :=
  Bool.eqb (isCustomProperty property) false.

Definition isAtRule (tuple : node) : bool := startsWith (js "@") (first tuple).

Definition isPseudoClassRule (tuple : node) : bool := startsWith (js ":") (first tuple).

(** [a.map((x, index) => ...)] *)
Fixpoint mapi_from {A B} (index : Z) (f : A -> Z -> B) (l : list A) : list B :=
  match l with
  | [] => []
  | x :: l' => f x index :: mapi_from (index + 1) f l'
  end.

Definition mapi {A B} (f : A -> Z -> B) (l : list A) : list B := mapi_from 0 f l.

(** An array element that is [undefined] joins as the empty string. *)
Definition orEmpty (x : option jsstring) : jsstring :=
  match x with Some s => s | None => [] end.

Definition alphabet : list jsstring :=
  spread (js "01234567890abcdefghijklmnopqrstuvwxyzABCDEFGHIJKLMNOPQRSTUVWXYZ-").

Definition masks : list Z :=
  [ 0x3f; 0xfc0; 0x3f000; 0xfc0000; 0x3f000000 ].

Definition hashInt (data : jsstring) : Z :=
  fold_left (fun hash char => ushr (hash * 311 + charCodeAt0 char) 0)
            (spread data) 313.

Definition hash (data : jsstring) : jsstring :=
  let hashInt := hashInt data in
  let hash :=
    mapi (fun mask index =>
            nth_error alphabet (Z.to_nat (ushr (and_ hashInt mask) (index * 6))))
         masks in
  join [] (map orEmpty hash).

(** ** Core parts *)

Definition semicolon : Z := 59.
Definition braceOpen : Z := 123.
Definition braceClose : Z := 125.
Definition colon : Z := 58.

(** [text.search(/[;{]/)] *)
Definition search (text : jsstring) : Z :=
  findIndex (fun c => (c =? semicolon) || (c =? braceOpen)) text.

Definition assertMessage : jsstring := js "Headwind: line is incorrectly formatted: ".

(** [line.split(':').map(trim)], an array with at least one element. *)
Definition splitProperty (line : jsstring) : node :=
  let '(key, rest) := split colon line in Decl (trim key) (map trim rest).

(** [property.length] *)
Definition tupleLength (property : node) : Z :=
  match property with
  | Decl _ rest => 1 + Z.of_nat (List.length rest)
  | Rule _ _ => 2
  end.

(** [parse(text, result)].  The function calls itself once per
    declaration and twice per nested rule, each call one frame deeper;
    [depth] is the number of frames the engine's call stack still has room
    for, and the engine throws a [RangeError] when there is none left. *)
Fixpoint parse (depth : nat) (text : jsstring) (result : ParsedCSS) : M ParsedCSS :=
  match depth with
  | O => throw RangeError
  | S depth =>
      if JS.eqb (trim text) [] then ret result
      else
        let nextCharAt := search text in
        if nextCharAt =? -1 then
          let property := splitProperty text in
          consoleAssert (tupleLength property =? 2) assertMessage text ;;;
          ret (result ++ [property])
        else
          let nextChar := at_ text nextCharAt in
          match nextChar with
          | Some c =>
              if c =? semicolon then
                let line := slice text 0 nextCharAt in
                let property := splitProperty line in
                let remainingLines := sliceFrom text (nextCharAt + 1) in
                let resultSoFar := result ++ [property] in
                consoleAssert (tupleLength property =? 2) assertMessage line ;;;
                parse depth remainingLines resultSoFar
              else if c =? braceOpen then
                let bracketOpenAt := nextCharAt in
                let bracketCloseAt := indexOfChar braceClose text in
                let rule := trim (slice text 0 bracketOpenAt) in
                let ruleBody := slice text (bracketOpenAt + 1) bracketCloseAt in
                properties <- parse depth ruleBody [] ;;
                let remainingLines := sliceFrom text (bracketCloseAt + 1) in
                let resultSoFar := result ++ [Rule rule properties] in
                parse depth remainingLines resultSoFar
              else throw (Error (js "should be unreachable"))
          | None => throw (Error (js "should be unreachable"))
          end
  end.

Definition emptyCompiled : CompiledCSS :=
  {| classes := []; customProperties := []; rules := [] |}.

(** The callback of the final [reduce]. *)
Definition merge (accumulated current : CompiledCSS) : CompiledCSS :=
  {| classes := classes accumulated ++ classes current;
     customProperties := customProperties accumulated ++ customProperties current;
     rules := rules accumulated ++ rules current |}.

(** The body of a nested rule, [tuple[1]] after the [isNested] guard. *)
Definition nestedProperties (tuple : node) : ParsedCSS :=
  match tuple with Rule _ properties => properties | Decl _ _ => [] end.

Definition compile (properties : ParsedCSS) : CompiledCSS :=
  let simpleProperties := filter isSimple properties in
  let nestedRules := filter isNested properties in
  let atQueryRules := filter isAtRule nestedRules in
  let pseudoClassRules := filter isPseudoClassRule nestedRules in
  let simpleRule :=
    if 0 <? Z.of_nat (List.length simpleProperties) then
      let customProperties := filter isCustomProperty simpleProperties in
      let normalProperties := filter isNormalProperty simpleProperties in
      let ruleBody :=
        placeholder ++ js " { " ++ stringifyProperties normalProperties ++ js " }" in
      let hwClass := js "hw_" ++ hash ruleBody in
      {| classes := [hwClass];
         customProperties := customProperties;
         rules := [ {| ruleBody := ruleBody; selector := js "." ++ hwClass |} ] |}
    else emptyCompiled in
  let pseudoRules :=
    map (fun tuple =>
           let pseudoClass := first tuple in
           let properties := nestedProperties tuple in
           let ruleBody :=
             placeholder ++ js " { " ++ stringifyProperties properties ++ js " }" in
           let hwClass := js "hw_" ++ hash (pseudoClass ++ hash ruleBody) in
           {| classes := [hwClass];
              customProperties := [];
              rules := [ {| ruleBody := ruleBody;
                            selector := js "." ++ hwClass ++ pseudoClass |} ] |})
        pseudoClassRules in
  let atRules :=
    map (fun tuple =>
           let atQuery := first tuple in
           let properties := nestedProperties tuple in
           let ruleBody :=
             atQuery ++ js " { " ++ placeholder ++ js " { "
                     ++ stringifyProperties properties ++ js " } }" in
           let hwClass := js "hw_" ++ hash (atQuery ++ hash ruleBody) in
           {| classes := [hwClass];
              customProperties := [];
              rules := [ {| ruleBody := ruleBody; selector := js "." ++ hwClass |} ] |})
        atQueryRules in
  fold_left merge (pseudoRules ++ atRules) simpleRule.

(** ** Fresh/Preact specific parts *)

(** The value of [vnode.props.style]: nothing, a string, or any other
    value, of which the hook only looks at its [typeof]. *)
Inductive styleValue : Type :=
  | StyleUndefined
  | StyleString (text : jsstring)
  | StyleOther (typeofStyle : jsstring).

(** A virtual node, as far as the hook touches it: its element type as the
    warning prints it, the [class] and [style] properties, and everything
    else it carries. *)
Record vnode : Type := mkVNode {
  vtype : jsstring;
  class : option jsstring;
  style : styleValue;
  others : list (jsstring * jsstring)
}.

Definition applyClass (v : vnode) (hwClass : jsstring) : vnode :=
  match class v with
  | Some (c :: cs) =>
      {| vtype := vtype v; class := Some ((c :: cs) ++ js " " ++ hwClass);
         style := style v; others := others v |}
  | _ =>
      {| vtype := vtype v; class := Some hwClass;
         style := style v; others := others v |}
  end.

Definition setStyle (v : vnode) (s : styleValue) : vnode :=
  {| vtype := vtype v; class := class v; style := s; others := others v |}.

(** [rules.forEach(({ ruleBody, selector }) => addRule(stylesheet, ruleBody, selector))] *)
Definition addRules (rules : list rule) (stylesheet : Stylesheet) : Stylesheet :=
  fold_left (fun sheet r => addRule sheet (ruleBody r) (selector r)) rules stylesheet.

Definition warnMessage (typeofStyle type : jsstring) : jsstring :=
  js "Headwind: the compiler only works with strings, but style of the type '"
  ++ typeofStyle ++ js "' on element '" ++ type ++ js "'".

(** [hook(vnode)] with the shared [stylesheet] passed in and out.
    [depth] is the room on the call stack when [parse] is called. *)
Definition hook (depth : nat) (v : vnode) (stylesheet : Stylesheet)
  : M (vnode * Stylesheet) :=
  match style v with
  | StyleUndefined => ret (v, stylesheet)
  | StyleOther typeofStyle =>
      consoleWarn (warnMessage typeofStyle (vtype v)) ;;;
      ret (v, stylesheet)
  | StyleString text =>
      parsed <- parse depth text [] ;;
      let compiled := compile parsed in
      let v := fold_left applyClass (classes compiled) v in
      let v :=
        if 0 <? Z.of_nat (List.length (customProperties compiled))
        then setStyle v (StyleString (stringifyProperties (customProperties compiled)))
        else setStyle v StyleUndefined in
      let stylesheet := addRules (rules compiled) stylesheet in
      ret (v, stylesheet)
  end.

(** [headwind.render]: the text of the stylesheet, and the stylesheet
    cleared. *)
Definition render (stylesheet : Stylesheet) : jsstring * Stylesheet :=
  let cssText := stringifyStylesheet stylesheet in
  (cssText, []).

(** ** Reference definitions, written from the specification *)

(** The symbol of the alphabet at a 6-bit value. *)
Definition symbolAt (index : Z) : jsstring :=
  orEmpty (nth_error alphabet (Z.to_nat index)).

Definition fieldOffsets : list Z := [0; 6; 12; 18; 24].

(** The characters of a string, when a character is a code unit. *)
Definition codeUnits (data : jsstring) : list jsstring := map (fun c => [c]) data.

(** The specification's hashing algorithm: an unsigned 32-bit accumulator
    seeded at 313, updated for each character by
    [(accumulator * 311 + value) mod 2^32], then five 6-bit fields at
    offsets 0, 6, 12, 18 and 24, each mapped to its symbol.  [characters]
    cuts the string into characters and [value] is the number a character
    contributes. *)
Definition hash_reference (characters : jsstring -> list jsstring)
           (value : jsstring -> Z) (data : jsstring) : jsstring :=
  let accumulator :=
    fold_left (fun accumulator char => (accumulator * 311 + value char) mod 2 ^ 32)
              (characters data) 313 in
  List.concat
    (map (fun offset => symbolAt ((accumulator / 2 ^ offset) mod 64)) fieldOffsets).

(** Every character of [data] is one code unit: no surrogate pair. *)
Definition isBMP (data : jsstring) : bool :=
  forallb (fun char => Nat.eqb (List.length char) 1) (spread data).

(** Literal substitution of [replacement] for the first occurrence of
    [token]. *)
Definition substitute (text token replacement : jsstring) : jsstring :=
  match indexOf token text with
  | None => text
  | Some i => firstn i text ++ replacement ++ skipn (i + List.length token) text
  end.

(** The specification's [serialize]. *)
Definition serialize_reference (sheet : Stylesheet) : jsstring :=
  join newline
    (map (fun '(ruleBody, selectors) =>
            substitute ruleBody placeholder (join (js ", ") selectors)) sheet).

(** [hwClass] and [r] are a class of [compile properties] and its rule:
    the class is ["hw_"] and a five-symbol token, the selector is a dot,
    the class and possibly the fragment of a pseudo-class rule of
    [properties]. *)
Definition classOfRule (properties : ParsedCSS) (hwClass : jsstring) (r : rule) : Prop :=
  exists token suffix,
    hwClass = js "hw_" ++ token
    /\ List.length token = 5%nat
    /\ Forall (fun c => In [c] alphabet) token
    /\ selector r = js "." ++ hwClass ++ suffix
    /\ (suffix = []
        \/ exists body, In (Rule suffix body) properties
                        /\ isPseudoClassRule (Rule suffix body) = true).

(** ** Auxiliary definitions for the statements *)

(** The code unit of ['$']. *)
Definition dollar : Z := 36.

(** The pieces of a list of lines, without the last one when it is
    blank. *)
Fixpoint dropBlankLast (lines : list jsstring) : list jsstring :=
  match lines with
  | [] => []
  | [line] => if JS.eqb (trim line) [] then [] else [line]
  | line :: lines' => line :: dropBlankLast lines'
  end.

(** The declaration lines of a text: the pieces between its semicolons,
    the last one counting only when it is not blank. *)
Definition declarationLines (text : jsstring) : list jsstring :=
  let '(line, lines) := split semicolon text in dropBlankLast (line :: lines).

(** The condition of the assertion of [parse] fails on [line]. *)
Definition malformed (line : jsstring) : bool :=
  negb (tupleLength (splitProperty line) =? 2).

(** The four shapes of the text [parse] is called on: blank; a last
    declaration; a declaration up to a semicolon; a selector fragment up
    to an opening brace. *)
Inductive textShape : jsstring -> Prop :=
  | ShapeBlank text :
      JS.eqb (trim text) [] = true -> textShape text
  | ShapeLast text :
      JS.eqb (trim text) [] = false ->
      ~ In semicolon text -> ~ In braceOpen text -> textShape text
  | ShapeSemicolon a b :
      ~ In semicolon a -> ~ In braceOpen a -> textShape (a ++ semicolon :: b)
  | ShapeBrace a b :
      ~ In semicolon a -> ~ In braceOpen a -> textShape (a ++ braceOpen :: b).

(** The text after a ['{'] that nothing closes: however far one reads,
    the closing braces met are no more than the opening ones. *)
Definition unclosed (after : jsstring) : Prop :=
  forall n : nat,
    (count_occ Z.eq_dec (firstn n after) braceClose
     <= count_occ Z.eq_dec (firstn n after) braceOpen)%nat.

(** [unclosed], checked on every prefix. *)
Definition unclosedb (after : jsstring) : bool :=
  forallb (fun n => Nat.leb (count_occ Z.eq_dec (firstn n after) braceClose)
                            (count_occ Z.eq_dec (firstn n after) braceOpen))
          (seq 0 (S (List.length after))).

(** [p] occurs in [s]. *)
Definition occurs (p s : jsstring) : Prop := exists a b, s = a ++ p ++ b.

(** A string in which neither the placeholder nor ['$'] occurs. *)
Definition clean (s : jsstring) : Prop := ~ occurs placeholder s /\ ~ In dollar s.

#[warnings="-register-all"]
Inductive cleanNode : node -> Prop :=
  | cleanDecl key rest :
      clean key -> Forall clean rest -> cleanNode (Decl key rest)
  | cleanRule fragment properties :
      clean fragment -> Forall cleanNode properties ->
      cleanNode (Rule fragment properties).

(** A code unit that is neither in the placeholder nor ['$']. *)
Definition isSeparator (c : Z) : bool :=
  negb (existsb (Z.eqb c) placeholder) && negb (c =? dollar).

(** A rule body in which replacing the placeholder by a clean text gives
    a clean text. *)
Definition bodyOk (body : jsstring) : Prop :=
  forall replacement, clean replacement -> clean (replace body placeholder replacement).

Definition entryOk (entry : jsstring * list jsstring) : Prop :=
  bodyOk (fst entry) /\ Forall clean (snd entry).

(** A style text in which neither the placeholder nor ['$'] occurs. *)
Definition cleanText (text : jsstring) : bool :=
  negb (includes placeholder text) && negb (existsb (Z.eqb dollar) text).

Definition cleanStyle (v : vnode) : bool :=
  match style v with StyleString text => cleanText text | _ => true end.

(** A render pass: [createVNode] of the JSX runtime calls the hook on
    each node it creates, in turn, on the shared stylesheet. *)
Fixpoint hookAll (depth : nat) (nodes : list vnode) (stylesheet : Stylesheet)
  : M (list vnode * Stylesheet) :=
  match nodes with
  | [] => ret ([], stylesheet)
  | v :: nodes' =>
      r <- hook depth v stylesheet ;;
      r' <- hookAll depth nodes' (snd r) ;;
      ret (fst r :: fst r', snd r')
  end.

(** ** Auxiliary definitions for the further properties *)

(** A function applied to the value of a computation that returns. *)
Definition mapNormal {A B} (f : A -> B) (m : M A) : M B :=
  match m with
  | (l, Normal a) => (l, Normal (f a))
  | (l, Throw e) => (l, Throw e)
  end.

(** A declaration, or a nested rule whose body holds declarations only. *)
Definition oneLevel (tuple : node) : bool :=
  match tuple with
  | Decl _ _ => true
  | Rule _ properties => forallb isSimple properties
  end.

(** A token with no white space around it and no [';'] or ['{'] in it. *)
Definition tidyPart (part : jsstring) : Prop :=
  trim part = part /\ ~ In semicolon part /\ ~ In braceOpen part.

#[warnings="-register-all"]
Inductive tidyNode : node -> Prop :=
  | tidyDecl key rest :
      Forall (fun part => tidyPart part /\ ~ In colon part) (key :: rest) ->
      tidyNode (Decl key rest)
  | tidyRule fragment properties :
      tidyPart fragment -> Forall tidyNode properties ->
      tidyNode (Rule fragment properties).

(** A name or a value as [parse] reads it back: trimmed, and free of the
    characters the parser cuts at. *)
Definition plainPart (part : jsstring) : Prop :=
  trim part = part /\ ~ In semicolon part /\ ~ In colon part /\ ~ In braceOpen part.

Definition plainDeclaration (tuple : node) : Prop :=
  exists key value, tuple = Decl key [value] /\ plainPart key /\ plainPart value.

(** [stylesheet.get(ruleBody)], the empty set when there is no entry. *)
Definition selectorsOf (stylesheet : Stylesheet) (ruleBody : jsstring) : list jsstring :=
  match assocGet stylesheet ruleBody with Some selectors => selectors | None => [] end.

(** [stylesheet.get(ruleBody)?.has(selector)] *)
Definition present (stylesheet : Stylesheet) (ruleBody selector : jsstring) : bool :=
  existsb (JS.eqb selector) (selectorsOf stylesheet ruleBody).

(** What a [Map] of [Set]s is: no key twice, no member twice. *)
Definition wellFormed (stylesheet : Stylesheet) : Prop :=
  NoDup (map fst stylesheet) /\ Forall (fun entry => NoDup (snd entry)) stylesheet.

(** The second character of a replacement pattern: [$], [&], [`] or [']. *)
Definition isPatternChar (c : Z) : bool :=
  (c =? 36) || (c =? 38) || (c =? 96) || (c =? 39).

(** A ['$'] of [replacement] is followed by a pattern character. *)
Fixpoint hasPattern (replacement : jsstring) : bool :=
  match replacement with
  | [] => false
  | c :: r =>
      ((c =? dollar) && match r with c' :: _ => isPatternChar c' | [] => false end)
      || hasPattern r
  end.


(** * Properties *)

(** A code unit that a literal does not contain. *)
Ltac not_in_literal := vm_compute; intuition discriminate.


(** ** The string methods *)

Section Strings.

Lemma trimStart_nil_iff s : trimStart s = [] <-> forallb isWhiteSpace s = true.
Proof.
  induction s as [|c s IH]; simpl; [tauto|].
  destruct (isWhiteSpace c); simpl; [exact IH|]. split; discriminate.
Qed.

Lemma trimStart_suffix s : exists a, s = a ++ trimStart s /\ forallb isWhiteSpace a = true.
Proof.
  induction s as [|c s (a & IH & Ha)]; simpl.
  - exists []. split; reflexivity.
  - destruct (isWhiteSpace c) eqn:E.
    + exists (c :: a). simpl. rewrite E. split; [f_equal; exact IH | exact Ha].
    + exists []. split; reflexivity.
Qed.

Lemma trimEnd_prefix s : exists b, s = trimEnd s ++ b /\ forallb isWhiteSpace b = true.
Proof.
  unfold trimEnd. destruct (trimStart_suffix (rev s)) as (a & E & Ha).
  exists (rev a). split.
  - rewrite <- rev_app_distr, <- E. symmetry. apply rev_involutive.
  - rewrite forallb_forall in *. intros x Hx. apply Ha. apply in_rev. exact Hx.
Qed.

(** [trim] keeps a segment of the string and drops white space only. *)
Lemma trim_segment s :
  exists a b, s = a ++ trim s ++ b
              /\ forallb isWhiteSpace a = true /\ forallb isWhiteSpace b = true.
Proof.
  unfold trim. destruct (trimStart_suffix s) as (a & E & Ha).
  destruct (trimEnd_prefix (trimStart s)) as (b & E' & Hb).
  exists a, b. split; [|split; assumption]. rewrite <- E'. exact E.
Qed.

Lemma trim_blank_iff s : JS.eqb (trim s) [] = true <-> forallb isWhiteSpace s = true.
Proof.
  split.
  - intros H. destruct (trim_segment s) as (a & b & E & Ha & Hb).
    destruct (trim s); [|discriminate H]. rewrite E. simpl.
    rewrite forallb_app, Ha, Hb. reflexivity.
  - intros H. unfold trim. apply trimStart_nil_iff in H. rewrite H. reflexivity.
Qed.

Lemma trim_not_blank s c :
  In c s -> isWhiteSpace c = false -> JS.eqb (trim s) [] = false.
Proof.
  intros Hin Hc. destruct (JS.eqb (trim s) []) eqn:E; [|reflexivity].
  apply trim_blank_iff in E. rewrite forallb_forall in E.
  rewrite (E c Hin) in Hc. discriminate.
Qed.

Lemma len_nonneg s : 0 <= len s.
Proof. unfold len. lia. Qed.

Lemma findIndex_lower p s : -1 <= findIndex p s.
Proof.
  induction s as [|c s IH]; simpl; [lia|].
  destruct (p c); [lia|]. destruct (findIndex p s <? 0) eqn:E; [lia|].
  apply Z.ltb_ge in E. lia.
Qed.

(** [findIndex] finds nothing exactly when no code unit satisfies [p]. *)
Lemma findIndex_none p s : findIndex p s = -1 <-> forall c, In c s -> p c = false.
Proof.
  induction s as [|c s IH]; simpl.
  - split; [intros _ c [] | reflexivity].
  - destruct (p c) eqn:E.
    + split; [discriminate|]. intros H. rewrite (H c (or_introl eq_refl)) in E.
      discriminate.
    + destruct (findIndex p s <? 0) eqn:E'.
      * split; [|reflexivity]. intros _ x [<- | Hx]; [exact E|].
        apply IH; [|exact Hx]. apply Z.ltb_lt in E'.
        pose proof (findIndex_lower p s). lia.
      * apply Z.ltb_ge in E'. split; [lia|]. intros H.
        assert (findIndex p s = -1) by (apply IH; intros x Hx; apply H; right; exact Hx).
        lia.
Qed.

(** Where [findIndex] finds something, the string splits in three there. *)
Lemma findIndex_found p s :
  0 <= findIndex p s ->
  exists a c b, s = a ++ c :: b /\ findIndex p s = len a /\ p c = true
                /\ forall x, In x a -> p x = false.
Proof.
  induction s as [|c s IH]; simpl; [lia|].
  destruct (p c) eqn:E.
  - intros _. exists [], c, s. repeat split; [exact E | intros x []].
  - destruct (findIndex p s <? 0) eqn:E'; [lia|]. apply Z.ltb_ge in E'. intros _.
    destruct (IH E') as (a & d & b & -> & Hi & Hd & Ha).
    exists (c :: a), d, b. repeat split.
    + rewrite Hi. unfold len. simpl. lia.
    + exact Hd.
    + intros x [<- | Hx]; [exact E | exact (Ha x Hx)].
Qed.

Lemma at_middle a c b : at_ (a ++ c :: b) (len a) = Some c.
Proof.
  unfold at_, len. destruct (Z.of_nat (List.length a) <? 0) eqn:E;
    [apply Z.ltb_lt in E; lia|].
  rewrite Nat2Z.id. rewrite nth_error_app2 by lia. rewrite Nat.sub_diag. reflexivity.
Qed.

Lemma relindex_inside n i : 0 <= i <= n -> relindex n i = i.
Proof.
  intros H. unfold relindex. destruct (i <? 0) eqn:E; [apply Z.ltb_lt in E; lia | lia].
Qed.

Lemma slice_prefix a c b : slice (a ++ c :: b) 0 (len a) = a.
Proof.
  unfold slice. rewrite !relindex_inside.
  - simpl. rewrite Z.sub_0_r. unfold len. rewrite Nat2Z.id.
    rewrite firstn_app, Nat.sub_diag, firstn_all. simpl. apply app_nil_r.
  - unfold len. rewrite length_app. simpl. lia.
  - unfold len. rewrite length_app. simpl. lia.
Qed.

Lemma sliceFrom_suffix a c b : sliceFrom (a ++ c :: b) (len a + 1) = b.
Proof.
  unfold sliceFrom. rewrite relindex_inside.
  - unfold len. replace (Z.to_nat (Z.of_nat (List.length a) + 1)) with (List.length a + 1)%nat by lia.
    rewrite skipn_app. replace (List.length a + 1 - List.length a)%nat with 1%nat by lia.
    rewrite skipn_all2 by lia. reflexivity.
  - unfold len. rewrite length_app. simpl. lia.
Qed.

Lemma sliceFrom_0 s : sliceFrom s 0 = s.
Proof. unfold sliceFrom, relindex. simpl. rewrite Z.min_l by apply len_nonneg. reflexivity. Qed.

End Strings.

(** ** Occurrences of a pattern *)

Section Occurrences.

Variable p : jsstring.

Lemma startsWith_iff s : startsWith p s = true <-> exists r, s = p ++ r.
Proof.
  revert s. induction p as [|x q IH]; intros s; simpl.
  - split; [intros _; exists s; reflexivity | reflexivity].
  - destruct s as [|y s].
    + split; [discriminate | intros (r & E); discriminate E].
    + rewrite andb_true_iff, Z.eqb_eq, IH. split.
      * intros (-> & r & ->). exists r. reflexivity.
      * intros (r & E). injection E as -> ->. split; [reflexivity | exists r; reflexivity].
Qed.

Lemma indexOf_some s : forall i,
  indexOf p s = Some i -> exists r, s = firstn i s ++ p ++ r /\ skipn i s = p ++ r.
Proof.
  induction s as [|x s IH]; intros i H.
  - cbn [indexOf] in H. destruct (startsWith p []) eqn:E; [|discriminate H].
    injection H as <-. apply startsWith_iff in E as (r & E). exists r. split; exact E.
  - cbn [indexOf] in H. destruct (startsWith p (x :: s)) eqn:E.
    + injection H as <-. apply startsWith_iff in E as (r & E). exists r. split; exact E.
    + destruct (indexOf p s) as [j|] eqn:Ej; [|discriminate H].
      injection H as <-. destruct (IH j eq_refl) as (r & E1 & E2).
      exists r. simpl. split; [f_equal; exact E1 | exact E2].
Qed.

Lemma indexOf_none s : indexOf p s = None -> ~ occurs p s.
Proof.
  induction s as [|x s IH]; intros H (a & b & E).
  - cbn [indexOf] in H. destruct (startsWith p []) eqn:Es; [discriminate H|].
    destruct a; [|discriminate E]. simpl in E.
    assert (startsWith p [] = true) by (apply startsWith_iff; exists b; exact E).
    congruence.
  - cbn [indexOf] in H. destruct (startsWith p (x :: s)) eqn:Es; [discriminate H|].
    destruct (indexOf p s) eqn:Ei; [discriminate H|].
    destruct a as [|y a].
    + assert (startsWith p (x :: s) = true) by (apply startsWith_iff; exists b; exact E).
      congruence.
    + injection E as _ E. apply (IH eq_refl). exists a, b. exact E.
Qed.

Lemma includes_false_iff s : includes p s = false <-> ~ occurs p s.
Proof.
  unfold includes. destruct (indexOf p s) as [i|] eqn:E.
  - split; [discriminate|]. intros H. exfalso. apply H.
    destruct (indexOf_some s i E) as (r & E1 & _). exists (firstn i s), r. exact E1.
  - split; [intros _; apply indexOf_none; exact E | reflexivity].
Qed.

Lemma occurs_segment a s b : occurs p s -> occurs p (a ++ s ++ b).
Proof.
  intros (a' & b' & ->). exists (a ++ a'), (b' ++ b).
  rewrite <- !app_assoc. reflexivity.
Qed.

Lemma occurs_short s : (List.length s < List.length p)%nat -> ~ occurs p s.
Proof.
  intros H (a & b & ->). rewrite !length_app in H. lia.
Qed.

(** A code unit that is not in the pattern cuts every occurrence. *)
Lemma prefix_before_separator c a b :
  ~ In c p -> (exists r, a ++ c :: b = p ++ r) -> exists r, a = p ++ r.
Proof.
  intros Hc. revert a. induction p as [|x q IH]; intros a (r & E).
  - exists a. reflexivity.
  - destruct a as [|y a]; simpl in E; injection E as E1 E2.
    + exfalso. apply Hc. left. symmetry. exact E1.
    + subst y. destruct (IH (fun H => Hc (or_intror H)) a (ex_intro _ r E2)) as (r' & ->).
      exists r'. reflexivity.
Qed.

Lemma occurs_separator c a b :
  ~ In c p -> occurs p (a ++ c :: b) -> occurs p a \/ occurs p b.
Proof.
  intros Hc (u & v & E). revert u E. induction a as [|x a IH]; intros u E.
  - destruct u as [|y u]; simpl in E.
    + destruct p as [|z q]; [left; exists [], []; reflexivity|].
      injection E as E _. exfalso. apply Hc. left. symmetry. exact E.
    + injection E as _ E. right. exists u, v. exact E.
  - destruct u as [|y u]; simpl in E.
    + destruct (prefix_before_separator c (x :: a) b Hc (ex_intro _ v E)) as (r & Er).
      left. exists [], r. exact Er.
    + injection E as _ E. destruct (IH u E) as [(u' & v' & ->) | H].
      * left. exists (x :: u'), v'. reflexivity.
      * right. exact H.
Qed.

(** The first occurrence is not before a separator that follows a part
    without occurrence. *)
Lemma indexOf_separator c a b :
  ~ In c p -> p <> [] -> ~ occurs p a ->
  indexOf p (a ++ c :: b)
  = option_map (fun i => (List.length a + 1 + i)%nat) (indexOf p b).
Proof.
  intros Hc Hp. induction a as [|x a IH]; intros Ha.
  - cbn [app indexOf]. destruct (startsWith p (c :: b)) eqn:E.
    + apply startsWith_iff in E as (r & E). destruct p as [|z q]; [congruence|].
      injection E as E _. exfalso. apply Hc. left. symmetry. exact E.
    + destruct (indexOf p b); reflexivity.
  - cbn [app indexOf]. destruct (startsWith p (x :: a ++ c :: b)) eqn:E.
    + apply startsWith_iff in E.
      destruct (prefix_before_separator c (x :: a) b Hc E) as (r & Er).
      exfalso. apply Ha. exists [], r. exact Er.
    + rewrite IH.
      * destruct (indexOf p b); reflexivity.
      * intros (u & v & ->). apply Ha. exists (x :: u), v. reflexivity.
Qed.

Lemma indexOf_here b : indexOf p (p ++ b) = Some O.
Proof.
  assert (E : startsWith p (p ++ b) = true) by (apply startsWith_iff; exists b; reflexivity).
  destruct (p ++ b); cbn [indexOf]; rewrite E; reflexivity.
Qed.

End Occurrences.

(** ** Hasher *)

Section Hasher.

Lemma ushr_0 x : ushr x 0 = x mod 2 ^ 32.
Proof. reflexivity. Qed.

(** Masking with six bits at offset [n] keeps the field at that offset. *)
Lemma land_field a n :
  0 <= n -> Z.land a (Z.shiftl 63 n) = ((a / 2 ^ n) mod 64) * 2 ^ n.
Proof.
  intros Hn.
  change 64 with (2 ^ 6). rewrite <- Z.land_ones by lia.
  rewrite <- Z.shiftr_div_pow2, <- Z.shiftl_mul_pow2 by lia.
  change (Z.ones 6) with 63.
  apply Z.bits_inj'. intros i Hi.
  rewrite Z.land_spec.
  destruct (Z.lt_ge_cases i n) as [Hlt | Hge].
  - rewrite !Z.shiftl_spec_low by lia. apply andb_false_r.
  - rewrite !Z.shiftl_spec by lia. rewrite Z.land_spec, Z.shiftr_spec by lia.
    replace (i - n + n) with i by lia. reflexivity.
Qed.

(** The operands of [&] are converted to signed 32-bit integers; the
    fields below bit 30 do not see the difference. *)
Lemma field_of_int32 h n :
  0 <= h < 2 ^ 32 -> 0 <= n <= 26 ->
  (toInt32 h / 2 ^ n) mod 64 = (h / 2 ^ n) mod 64.
Proof.
  intros Hh Hn. unfold toInt32, toUint32.
  rewrite (Z.mod_small h) by exact Hh.
  destruct (h <? 2 ^ 31); [reflexivity|].
  replace (h - 2 ^ 32) with (h + (- 2 ^ (26 - n) * 64) * 2 ^ n).
  - rewrite Z.div_add by (apply Z.pow_nonzero; lia).
    apply Z_mod_plus_full.
  - replace (2 ^ 32) with (2 ^ (26 - n) * 2 ^ 6 * 2 ^ n);
      [change (2 ^ 6) with 64; ring|].
    rewrite <- !Z.pow_add_r by lia. f_equal. lia.
Qed.

Lemma extract_field h n :
  0 <= h < 2 ^ 32 -> 0 <= n <= 24 ->
  ushr (and_ h (Z.shiftl 63 n)) n = (h / 2 ^ n) mod 64.
Proof.
  intros Hh Hn. unfold and_.
  assert (H24 : 2 ^ n <= 16777216) by (apply (Z.pow_le_mono_r 2 n 24); lia).
  assert (H0 : 0 < 2 ^ n) by (apply Z.pow_pos_nonneg; lia).
  assert (Hm : toInt32 (Z.shiftl 63 n) = Z.shiftl 63 n).
  { unfold toInt32, toUint32. rewrite Z.shiftl_mul_pow2 by lia.
    rewrite Z.mod_small by (change (2 ^ 32) with 4294967296; lia).
    destruct (63 * 2 ^ n <? 2 ^ 31) eqn:E; [reflexivity|].
    apply Z.ltb_ge in E. change (2 ^ 31) with 2147483648 in E. lia. }
  rewrite Hm, land_field, field_of_int32 by lia.
  unfold ushr, toUint32.
  pose proof (Z.mod_pos_bound (h / 2 ^ n) 64 ltac:(lia)) as Hf.
  rewrite (Z.mod_small n) by (change (2 ^ 32) with 4294967296; lia).
  change 31 with (Z.ones 5). rewrite Z.land_ones by lia.
  rewrite (Z.mod_small n) by (change (2 ^ 5) with 32; lia).
  rewrite Z.mod_small.
  - rewrite Z.shiftr_div_pow2 by lia. apply Z.div_mul. lia.
  - change (2 ^ 32) with 4294967296. nia.
Qed.

(** The accumulator times 311 plus a code unit stays below 2^53: the sum
    is exact in the double-precision numbers of JavaScript, and [>>> 0]
    reduces it modulo 2^32. *)
Lemma hash_step_exact h c :
  0 <= h < 2 ^ 32 -> 0 <= c < 2 ^ 16 -> 0 <= h * 311 + c < 2 ^ 53.
Proof.
  change (2 ^ 32) with 4294967296. change (2 ^ 16) with 65536.
  change (2 ^ 53) with 9007199254740992. lia.
Qed.

Lemma hashInt_fold data :
  hashInt data =
  fold_left (fun acc char => (acc * 311 + charCodeAt0 char) mod 2 ^ 32)
            (spread data) 313.
Proof.
  unfold hashInt. generalize 313.
  induction (spread data) as [|c l IH]; intros a; simpl.
  - reflexivity.
  - rewrite ushr_0. apply IH.
Qed.

Lemma fold_mod_range (value : jsstring -> Z) l : forall a,
  0 <= a < 2 ^ 32 ->
  0 <= fold_left (fun acc char => (acc * 311 + value char) mod 2 ^ 32) l a < 2 ^ 32.
Proof.
  induction l as [|c l IH]; intros a Ha; simpl.
  - exact Ha.
  - apply IH. apply Z.mod_pos_bound. reflexivity.
Qed.

Lemma hashInt_range data : 0 <= hashInt data < 2 ^ 32.
Proof.
  rewrite hashInt_fold. apply fold_mod_range. split; [discriminate | reflexivity].
Qed.

(** The token, field by field. *)
Lemma hash_fields data :
  hash data =
  List.concat
    (map (fun offset => symbolAt ((hashInt data / 2 ^ offset) mod 64)) fieldOffsets).
Proof.
  pose proof (hashInt_range data) as Hr.
  unfold hash, mapi, masks, fieldOffsets. cbn [mapi_from map join List.concat].
  change (0 * 6) with 0. change ((0 + 1) * 6) with 6.
  change ((0 + 1 + 1) * 6) with 12. change ((0 + 1 + 1 + 1) * 6) with 18.
  change ((0 + 1 + 1 + 1 + 1) * 6) with 24.
  change 0x3f with (Z.shiftl 63 0). change 0xfc0 with (Z.shiftl 63 6).
  change 0x3f000 with (Z.shiftl 63 12). change 0xfc0000 with (Z.shiftl 63 18).
  change 0x3f000000 with (Z.shiftl 63 24).
  rewrite !extract_field by (try exact Hr; split; discriminate).
  rewrite app_nil_r. reflexivity.
Qed.

Lemma alphabet_units :
  alphabet = map (fun c => [c])
    (js "01234567890abcdefghijklmnopqrstuvwxyzABCDEFGHIJKLMNOPQRSTUVWXYZ-").
Proof. reflexivity. Qed.

Lemma symbolAt_unit f :
  0 <= f < 64 -> exists c, symbolAt f = [c] /\ In [c] alphabet.
Proof.
  intros Hf. unfold symbolAt.
  destruct (nth_error alphabet (Z.to_nat f)) as [s|] eqn:E.
  - pose proof (nth_error_In _ _ E) as Hin.
    rewrite alphabet_units in Hin. apply in_map_iff in Hin as (c & <- & _).
    exists c. split; [reflexivity|]. eapply nth_error_In; eassumption.
  - apply nth_error_None in E. change (List.length alphabet) with 64%nat in E. lia.
Qed.

(** A token is five symbols of the alphabet. *)
Lemma hash_token data :
  exists a b c d e,
    hash data = [a; b; c; d; e] /\ Forall (fun x => In [x] alphabet) [a; b; c; d; e].
Proof.
  rewrite hash_fields. unfold fieldOffsets. cbn [map List.concat].
  set (h := hashInt data).
  destruct (symbolAt_unit ((h / 2 ^ 0) mod 64)) as (a & -> & Ha);
    [apply Z.mod_pos_bound; reflexivity|].
  destruct (symbolAt_unit ((h / 2 ^ 6) mod 64)) as (b & -> & Hb);
    [apply Z.mod_pos_bound; reflexivity|].
  destruct (symbolAt_unit ((h / 2 ^ 12) mod 64)) as (c & -> & Hc);
    [apply Z.mod_pos_bound; reflexivity|].
  destruct (symbolAt_unit ((h / 2 ^ 18) mod 64)) as (d & -> & Hd);
    [apply Z.mod_pos_bound; reflexivity|].
  destruct (symbolAt_unit ((h / 2 ^ 24) mod 64)) as (e & -> & He);
    [apply Z.mod_pos_bound; reflexivity|].
  exists a, b, c, d, e. split; [reflexivity|].
  repeat (apply Forall_cons; [assumption|]). apply Forall_nil.
Qed.

Lemma hash_length data : List.length (hash data) = 5%nat.
Proof. destruct (hash_token data) as (a & b & c & d & e & -> & _). reflexivity. Qed.

Lemma hash_in_alphabet data : Forall (fun x => In [x] alphabet) (hash data).
Proof. destruct (hash_token data) as (a & b & c & d & e & -> & H). exact H. Qed.

(** On a character that is one code unit, [charCodeAt(0)] is the code
    point. *)
Lemma fold_ext_in {A} (f g : Z -> A -> Z) l :
  (forall x, In x l -> forall a, f a x = g a x) ->
  forall a, fold_left f l a = fold_left g l a.
Proof.
  induction l as [|x l IH]; intros H a; simpl; [reflexivity|].
  rewrite (H x (or_introl eq_refl)). apply IH. intros y Hy. apply H. right. exact Hy.
Qed.

Lemma spread_BMP data : isBMP data = true -> spread data = codeUnits data.
Proof.
  unfold isBMP. induction data as [|hi data IH]; [reflexivity|].
  cbn [spread]. destruct data as [|lo data]; [reflexivity|].
  destruct (isLeadSurrogate hi && isTrailSurrogate lo).
  - intros H. cbn [forallb List.length Nat.eqb andb] in H. discriminate H.
  - intros H. cbn [forallb List.length Nat.eqb andb] in H.
    unfold codeUnits in *. cbn [map]. f_equal. exact (IH H).
Qed.

Lemma hash_reference_BMP data :
  isBMP data = true ->
  hash_reference spread charCodeAt0 data = hash_reference spread codePointAt0 data
  /\ hash_reference spread charCodeAt0 data = hash_reference codeUnits codePointAt0 data.
Proof.
  intros H.
  assert (E : hash_reference spread charCodeAt0 data
              = hash_reference spread codePointAt0 data).
  { unfold hash_reference, isBMP in *. rewrite forallb_forall in H.
    rewrite (fold_ext_in
               (fun acc char => (acc * 311 + charCodeAt0 char) mod 2 ^ 32)
               (fun acc char => (acc * 311 + codePointAt0 char) mod 2 ^ 32)).
    - reflexivity.
    - intros char Hin a. specialize (H char Hin).
      destruct char as [|c [|c' char]]; try discriminate H. reflexivity. }
  split; [exact E|]. rewrite E. unfold hash_reference.
  rewrite (spread_BMP data H). reflexivity.
Qed.

(** The alphabet has 64 entries and 63 symbols: the digit 0 is at the
    indices 0 and 10. *)
Lemma alphabet_zero_twice :
  nth_error alphabet 0 = Some (js "0") /\ nth_error alphabet 10 = Some (js "0").
Proof. split; reflexivity. Qed.

(** C2 (amended): [hash] is the reference algorithm in which every
    character contributes its first UTF-16 code unit: an unsigned 32-bit
    accumulator seeded at 313 and updated by
    [(accumulator * 311 + unit) mod 2^32], then five 6-bit fields at bit
    offsets 0, 6, 12, 18 and 24, each mapped to the entry at that index of
    the 64-entry alphabet.  For a string without surrogate pair that unit
    is the code point of the character.  The token always has length 5
    and every character of it is in the alphabet. *)
Theorem hash_reference_algorithm :
  forall data : jsstring,
    hash data = hash_reference spread charCodeAt0 data
    /\ (isBMP data = true ->
        hash data = hash_reference spread codePointAt0 data
        /\ hash data = hash_reference codeUnits codePointAt0 data)
    /\ List.length (hash data) = 5%nat
    /\ Forall (fun c => In [c] alphabet) (hash data)
    /\ List.length alphabet = 64%nat.
Proof.
  intros data.
  assert (Href : hash data = hash_reference spread charCodeAt0 data).
  { rewrite hash_fields, hashInt_fold. reflexivity. }
  split; [exact Href|]. split.
  - intros HB. rewrite Href. apply hash_reference_BMP. exact HB.
  - split; [apply hash_length|]. split; [apply hash_in_alphabet | reflexivity].
Qed.

Lemma hash_reference_algorithm_witness :
  hash (js "color: red") = hash_reference spread codePointAt0 (js "color: red")
  /\ hash (js "color: red") = hash_reference codeUnits codePointAt0 (js "color: red").
Proof.
  apply (proj1 (proj2 (hash_reference_algorithm (js "color: red")))).
  reflexivity.
Defined.

(** C2 as stated fails on a character outside the Basic Multilingual
    Plane: for U+1F600, the code units D83D DE00, [hash] feeds the lead
    surrogate D83D to the accumulator and drops DE00.  The reference
    algorithm gives another token, whether its characters are code points
    or code units. *)
Lemma hash_code_point_counterexample :
  spread [0xD83D; 0xDE00] = [[0xD83D; 0xDE00]]
  /\ codePointAt0 [0xD83D; 0xDE00] = 0x1F600
  /\ hashInt [0xD83D; 0xDE00] = 313 * 311 + 0xD83D
  /\ hash [0xD83D; 0xDE00] <> hash_reference spread codePointAt0 [0xD83D; 0xDE00]
  /\ hash [0xD83D; 0xDE00] <> hash_reference codeUnits codePointAt0 [0xD83D; 0xDE00].
Proof.
  split; [vm_compute; reflexivity|]. split; [vm_compute; reflexivity|].
  split; [vm_compute; reflexivity|]. split; vm_compute; discriminate.
Qed.

End Hasher.

(** ** Parser *)

Section Parser.

Lemma search_none text :
  search text = -1 <-> ~ In semicolon text /\ ~ In braceOpen text.
Proof.
  unfold search. rewrite findIndex_none. split.
  - intros H. split; intros Hin; specialize (H _ Hin); discriminate H.
  - intros (Hs & Hb) c Hin. apply orb_false_iff.
    split; apply Z.eqb_neq; intros ->; tauto.
Qed.

Lemma search_found text :
  0 <= search text ->
  exists a c b, text = a ++ c :: b /\ search text = len a
                /\ (c = semicolon \/ c = braceOpen)
                /\ ~ In semicolon a /\ ~ In braceOpen a.
Proof.
  intros H. destruct (findIndex_found _ _ H) as (a & c & b & E & Hi & Hc & Ha).
  exists a, c, b. split; [exact E|]. split; [exact Hi|]. split.
  - apply orb_true_iff in Hc as [Hc | Hc]; apply Z.eqb_eq in Hc; tauto.
  - split; intros Hin; specialize (Ha _ Hin); discriminate Ha.
Qed.

Lemma search_at a c b :
  (c = semicolon \/ c = braceOpen) -> ~ In semicolon a -> ~ In braceOpen a ->
  search (a ++ c :: b) = len a.
Proof.
  intros Hc Hs Hb. unfold search.
  induction a as [|x a IH]; simpl.
  - destruct Hc as [-> | ->]; reflexivity.
  - assert (Hx : (x =? semicolon) || (x =? braceOpen) = false).
    { apply orb_false_iff. split; apply Z.eqb_neq; intros ->.
      - apply Hs. left. reflexivity.
      - apply Hb. left. reflexivity. }
    rewrite Hx, IH.
    + destruct (len a <? 0) eqn:E; [apply Z.ltb_lt in E; unfold len in E; lia|].
      unfold len. simpl. lia.
    + intros Hin. apply Hs. right. exact Hin.
    + intros Hin. apply Hb. right. exact Hin.
Qed.

Lemma text_shape text : textShape text.
Proof.
  destruct (JS.eqb (trim text) []) eqn:Hb; [apply ShapeBlank; exact Hb|].
  pose proof (findIndex_lower (fun c => (c =? semicolon) || (c =? braceOpen)) text) as Hl.
  fold (search text) in Hl.
  destruct (Z.eq_dec (search text) (-1)) as [Hn | Hn].
  - apply search_none in Hn as (Hs & Ho). apply ShapeLast; assumption.
  - destruct (search_found text) as (a & c & b & -> & _ & [-> | ->] & Hs & Ho); [lia| |].
    + apply ShapeSemicolon; assumption.
    + apply ShapeBrace; assumption.
Qed.

Lemma semicolon_not_blank : isWhiteSpace semicolon = false.
Proof. reflexivity. Qed.

Lemma braceOpen_not_blank : isWhiteSpace braceOpen = false.
Proof. reflexivity. Qed.

(** The four ways a call of [parse] goes. *)
Lemma parse_blank depth text result :
  JS.eqb (trim text) [] = true -> parse (S depth) text result = ret result.
Proof. intros H. simpl. rewrite H. reflexivity. Qed.

Lemma parse_last depth text result :
  JS.eqb (trim text) [] = false -> ~ In semicolon text -> ~ In braceOpen text ->
  parse (S depth) text result
  = (consoleAssert (tupleLength (splitProperty text) =? 2) assertMessage text ;;;
     ret (result ++ [splitProperty text])).
Proof.
  intros Hb Hs Ho. cbn [parse]. rewrite Hb.
  rewrite (proj2 (search_none text) (conj Hs Ho)). reflexivity.
Qed.

Lemma parse_semicolon depth a b result :
  ~ In semicolon a -> ~ In braceOpen a ->
  parse (S depth) (a ++ semicolon :: b) result
  = (consoleAssert (tupleLength (splitProperty a) =? 2) assertMessage a ;;;
     parse depth b (result ++ [splitProperty a])).
Proof.
  intros Hs Ho. cbn [parse].
  rewrite (trim_not_blank _ semicolon) by
    (try reflexivity; apply in_or_app; right; left; reflexivity).
  rewrite (search_at a semicolon b) by tauto.
  destruct (len a =? -1) eqn:E; [apply Z.eqb_eq in E; unfold len in E; lia|].
  rewrite at_middle, Z.eqb_refl, slice_prefix, sliceFrom_suffix. reflexivity.
Qed.

Lemma parse_brace depth a b result :
  ~ In semicolon a -> ~ In braceOpen a ->
  let text := a ++ braceOpen :: b in
  let bracketCloseAt := indexOfChar braceClose text in
  parse (S depth) text result
  = (properties <- parse depth (slice text (len a + 1) bracketCloseAt) [] ;;
     parse depth (sliceFrom text (bracketCloseAt + 1))
           (result ++ [Rule (trim a) properties])).
Proof.
  intros Hs Ho text bracketCloseAt. subst text bracketCloseAt. cbn [parse].
  rewrite (trim_not_blank _ braceOpen) by
    (try reflexivity; apply in_or_app; right; left; reflexivity).
  rewrite (search_at a braceOpen b) by tauto.
  destruct (len a =? -1) eqn:E; [apply Z.eqb_eq in E; unfold len in E; lia|].
  rewrite at_middle. change (braceOpen =? semicolon) with false.
  rewrite Z.eqb_refl, slice_prefix. reflexivity.
Qed.

Lemma bind_throw {A B} (m : M A) (f : A -> M B) log e :
  bind m f = (log, Throw e) ->
  m = (log, Throw e)
  \/ exists l1 a l2, m = (l1, Normal a) /\ f a = (l2, Throw e) /\ log = l1 ++ l2.
Proof.
  destruct m as (l1, [a | e1]); simpl.
  - destruct (f a) as (l2, c) eqn:E. intros H. injection H as <- ->.
    right. exists l1, a, l2. repeat split. exact E.
  - intros H. injection H as <- <-. left. reflexivity.
Qed.

Lemma bind_normal {A B} (m : M A) (f : A -> M B) log b :
  bind m f = (log, Normal b) ->
  exists l1 a l2, m = (l1, Normal a) /\ f a = (l2, Normal b) /\ log = l1 ++ l2.
Proof.
  destruct m as (l1, [a | e1]); simpl; [|discriminate].
  destruct (f a) as (l2, c) eqn:E. intros H. injection H as <- ->.
  exists l1, a, l2. repeat split. exact E.
Qed.

Lemma consoleAssert_normal condition message argument :
  exists log, consoleAssert condition message argument = (log, Normal tt).
Proof. unfold consoleAssert. destruct condition; eexists; reflexivity. Qed.

(** The [throw] at the end of [parse] is never reached: all [parse] can
    throw is the engine's [RangeError]. *)
Lemma parse_throws_RangeError depth : forall text result log e,
  parse depth text result = (log, Throw e) -> e = RangeError.
Proof.
  induction depth as [|depth IH]; intros text result log e H.
  - simpl in H. injection H as _ <-. reflexivity.
  - destruct (text_shape text) as [text Hb | text Hb Hs Ho | a b Hs Ho | a b Hs Ho].
    + rewrite parse_blank in H by exact Hb. discriminate H.
    + rewrite parse_last in H by assumption.
      destruct (consoleAssert_normal (tupleLength (splitProperty text) =? 2)
                  assertMessage text) as (l & El).
      rewrite El in H. discriminate H.
    + rewrite parse_semicolon in H by assumption.
      apply bind_throw in H as [H | (l1 & u & l2 & _ & H & _)].
      * destruct (consoleAssert_normal (tupleLength (splitProperty a) =? 2)
                    assertMessage a) as (l & El).
        rewrite El in H. discriminate H.
      * exact (IH _ _ _ _ H).
    + rewrite parse_brace in H by assumption.
      apply bind_throw in H as [H | (l1 & u & l2 & _ & H & _)]; exact (IH _ _ _ _ H).
Qed.

Lemma split_without c s : ~ In c s -> split c s = (s, []).
Proof.
  induction s as [|x s IH]; intros H; simpl; [reflexivity|].
  rewrite IH by (intros Hin; apply H; right; exact Hin).
  destruct (x =? c) eqn:E; [|reflexivity].
  apply Z.eqb_eq in E. exfalso. apply H. left. exact E.
Qed.

Lemma split_at c a b :
  ~ In c a -> split c (a ++ c :: b) = (a, fst (split c b) :: snd (split c b)).
Proof.
  induction a as [|x a IH]; intros H; simpl.
  - destruct (split c b) as (h, t). rewrite Z.eqb_refl. reflexivity.
  - rewrite IH by (intros Hin; apply H; right; exact Hin).
    destruct (x =? c) eqn:E; [|reflexivity].
    apply Z.eqb_eq in E. exfalso. apply H. left. exact E.
Qed.

(** The pieces of [split], joined by the separator, are the string, and
    no piece contains the separator. *)
Lemma split_join c s : join [c] (fst (split c s) :: snd (split c s)) = s.
Proof.
  induction s as [|x s IH]; [reflexivity|].
  cbn [split]. destruct (split c s) as (h, t).
  destruct (x =? c) eqn:E.
  - apply Z.eqb_eq in E. subst x. cbn [fst snd] in *.
    change (join [c] ([] :: h :: t)) with ([] ++ [c] ++ join [c] (h :: t)).
    rewrite IH. reflexivity.
  - cbn [fst snd] in *. destruct t as [|t1 t]; cbn [join] in *.
    + rewrite IH. reflexivity.
    + rewrite <- IH. reflexivity.
Qed.

Lemma split_pieces c s :
  Forall (fun piece => ~ In c piece) (fst (split c s) :: snd (split c s)).
Proof.
  induction s as [|x s IH]; [repeat constructor; intros []|].
  cbn [split]. destruct (split c s) as (h, t). cbn [fst snd] in *.
  destruct (x =? c) eqn:E; cbn [fst snd].
  - constructor; [intros [] | exact IH].
  - inversion IH as [|? ? Hh Ht]; subst. constructor; [|exact Ht].
    intros [-> | Hin]; [|exact (Hh Hin)]. rewrite Z.eqb_refl in E. discriminate.
Qed.

Lemma blank_without_semicolon text :
  JS.eqb (trim text) [] = true -> ~ In semicolon text.
Proof.
  intros H Hin. rewrite (trim_not_blank _ _ Hin semicolon_not_blank) in H. discriminate.
Qed.

Lemma declarationLines_blank text :
  JS.eqb (trim text) [] = true -> declarationLines text = [].
Proof.
  intros H. unfold declarationLines.
  rewrite split_without by (apply blank_without_semicolon; exact H).
  simpl. rewrite H. reflexivity.
Qed.

Lemma declarationLines_last text :
  JS.eqb (trim text) [] = false -> ~ In semicolon text -> declarationLines text = [text].
Proof.
  intros H Hs. unfold declarationLines. rewrite split_without by exact Hs.
  simpl. rewrite H. reflexivity.
Qed.

Lemma declarationLines_semicolon a b :
  ~ In semicolon a -> declarationLines (a ++ semicolon :: b) = a :: declarationLines b.
Proof.
  intros Hs. unfold declarationLines. rewrite split_at by exact Hs.
  destruct (split semicolon b) as (h, t). reflexivity.
Qed.

(** C3 (amended): a malformed declaration does not abort [parse].  On a
    text without nested rule and with room on the stack, [parse] returns
    the parts of every declaration line, malformed or not, and logs one
    failed assertion for each line that does not split on [':'] into
    exactly two parts; whether a part is empty is not checked. *)
Theorem parse_reports_malformed_and_returns :
  forall (depth : nat) (text : jsstring) (result : ParsedCSS),
    ~ In braceOpen text -> (List.length text < depth)%nat ->
    parse depth text result
    = (map (AssertionFailed assertMessage) (filter malformed (declarationLines text)),
       Normal (result ++ map splitProperty (declarationLines text))).
Proof.
  induction depth as [|depth IH]; intros text result Ho Hd; [lia|].
  destruct (text_shape text) as [text Hb | text Hb Hs _ | a b Hs Ho' | a b _ _].
  - rewrite parse_blank, declarationLines_blank by exact Hb.
    simpl. rewrite app_nil_r. reflexivity.
  - rewrite parse_last, declarationLines_last by assumption.
    unfold malformed. cbn [filter map].
    destruct (tupleLength (splitProperty text) =? 2); reflexivity.
  - rewrite parse_semicolon, declarationLines_semicolon by assumption.
    rewrite IH.
    + unfold malformed at 2. cbn [filter map].
      destruct (tupleLength (splitProperty a) =? 2); cbn [negb consoleAssert bind ret];
        rewrite <- app_assoc; reflexivity.
    + intros Hin. apply Ho. apply in_or_app. right. right. exact Hin.
    + rewrite length_app in Hd. simpl in Hd. lia.
  - exfalso. apply Ho. apply in_or_app. right. left. reflexivity.
Qed.

Lemma parse_reports_malformed_and_returns_witness :
  parse 9 (js "a:b;c;d:") []
  = (map (AssertionFailed assertMessage)
         (filter malformed (declarationLines (js "a:b;c;d:"))),
     Normal ([] ++ map splitProperty (declarationLines (js "a:b;c;d:")))).
Proof.
  apply (parse_reports_malformed_and_returns 9 (js "a:b;c;d:") []).
  - not_in_literal.
  - vm_compute. reflexivity.
Defined.

(** C3 as stated fails: the value of [color:] is empty, and [parse]
    returns the pair without a word; [color] has no colon, the assertion
    fails, is logged, and [parse] returns the one-part tuple. *)
Lemma parse_malformed_counterexample :
  parse 9 (js "color:") [] = ([], Normal [Decl (js "color") [[]]])
  /\ parse 9 (js "color") []
     = ([AssertionFailed assertMessage (js "color")], Normal [Decl (js "color") []]).
Proof. split; vm_compute; reflexivity. Qed.

Lemma split_count c s :
  List.length (snd (split c s)) = count_occ Z.eq_dec s c.
Proof.
  induction s as [|x s IH]; [reflexivity|].
  cbn [split count_occ]. destruct (split c s) as (h, t). cbn [snd] in IH.
  destruct (x =? c) eqn:E.
  - apply Z.eqb_eq in E. destruct (Z.eq_dec x c); [|contradiction].
    cbn [snd List.length]. rewrite IH. reflexivity.
  - apply Z.eqb_neq in E. destruct (Z.eq_dec x c); [contradiction|]. exact IH.
Qed.

Lemma splitProperty_parts line :
  splitProperty line
  = Decl (trim (fst (split colon line))) (map trim (snd (split colon line))).
Proof. unfold splitProperty. destruct (split colon line). reflexivity. Qed.

Lemma malformed_count line :
  malformed line = false <-> count_occ Z.eq_dec line colon = 1%nat.
Proof.
  unfold malformed. rewrite splitProperty_parts. cbn [tupleLength].
  rewrite length_map, split_count.
  destruct (1 + Z.of_nat (count_occ Z.eq_dec line colon) =? 2) eqn:E; simpl.
  - apply Z.eqb_eq in E. split; [lia | reflexivity].
  - apply Z.eqb_neq in E. split; [discriminate | lia].
Qed.

(** C4 (amended): [parse] splits a declaration on every [':'] and trims
    every part: the parts are one more than the colons of the line and,
    joined by [':'], give the line back.  The declaration is a pair of the
    trimmed sides exactly when the line has one colon; otherwise the
    assertion fails and the tuple returned has one part or more than two.
    A terminating semicolon changes nothing. *)
Theorem parse_splits_on_every_colon :
  forall (depth : nat) (line : jsstring) (result : ParsedCSS),
    ~ In semicolon line -> ~ In braceOpen line -> JS.eqb (trim line) [] = false ->
    let key := fst (split colon line) in
    let rest := snd (split colon line) in
    let log := if malformed line then [AssertionFailed assertMessage line] else [] in
    join [colon] (key :: rest) = line
    /\ Forall (fun part => ~ In colon part) (key :: rest)
    /\ List.length rest = count_occ Z.eq_dec line colon
    /\ (malformed line = false <-> count_occ Z.eq_dec line colon = 1%nat)
    /\ parse (S depth) line result
       = (log, Normal (result ++ [Decl (trim key) (map trim rest)]))
    /\ parse (S (S depth)) (line ++ [semicolon]) result
       = (log, Normal (result ++ [Decl (trim key) (map trim rest)])).
Proof.
  intros depth line result Hs Ho Hb key rest log.
  split; [apply split_join|]. split; [apply split_pieces|].
  split; [apply split_count|]. split; [apply malformed_count|].
  subst key rest log. rewrite <- splitProperty_parts. split.
  - rewrite parse_last by assumption. unfold malformed.
    destruct (tupleLength (splitProperty line) =? 2); reflexivity.
  - rewrite parse_semicolon by assumption.
    rewrite parse_blank by reflexivity. unfold malformed.
    destruct (tupleLength (splitProperty line) =? 2); reflexivity.
Qed.

Lemma parse_splits_on_every_colon_witness :
  parse 1 (js "color: red") [] = ([], Normal [Decl (js "color") [js "red"]])
  /\ parse 2 (js "color: red;") [] = ([], Normal [Decl (js "color") [js "red"]]).
Proof.
  assert (Hs : ~ In semicolon (js "color: red")) by not_in_literal.
  assert (Ho : ~ In braceOpen (js "color: red")) by not_in_literal.
  assert (Hb : JS.eqb (trim (js "color: red")) [] = false) by reflexivity.
  destruct (parse_splits_on_every_colon 0 (js "color: red") [] Hs Ho Hb)
    as (_ & _ & _ & _ & H1 & H2).
  split; [exact H1 | exact H2].
Defined.

(** C4 as stated fails: the value [url(http://x)] contains a colon and is
    cut in two there. *)
Lemma parse_url_value_counterexample :
  parse 9 (js "background: url(http://x)") []
  = ([AssertionFailed assertMessage (js "background: url(http://x)")],
     Normal [Decl (js "background") [js "url(http"; js "//x)"]])
  /\ snd (parse 9 (js "background: url(http://x)") [])
     <> Normal [Decl (js "background") [js "url(http://x)"]].
Proof. split; [vm_compute; reflexivity | vm_compute; discriminate]. Qed.

Lemma after_separator (x y : Z) a b before after :
  a ++ x :: b = before ++ y :: after -> ~ In y a -> x <> y ->
  exists before', b = before' ++ y :: after.
Proof.
  revert before. induction a as [|z a IH]; intros [|w before] E Hy Hxy;
    simpl in E; injection E as E1 E2.
  - contradiction.
  - exists before. exact E2.
  - exfalso. apply Hy. left. exact E1.
  - apply (IH before E2); [|exact Hxy]. intros Hin. apply Hy. right. exact Hin.
Qed.

Lemma after_terminator (x y : Z) a b before after :
  a ++ x :: b = before ++ y :: after -> ~ In x after -> x <> y ->
  exists before', b = before' ++ y :: after.
Proof.
  revert before. induction a as [|z a IH]; intros [|w before] E Hx Hxy;
    simpl in E; injection E as E1 E2.
  - contradiction.
  - exists before. exact E2.
  - exfalso. apply Hx. rewrite <- E2. apply in_or_app. right. left. reflexivity.
  - exact (IH before E2 Hx Hxy).
Qed.

(** On a text with a ['{'] after which no ['}'] comes, [parse] calls
    itself on the same text again and again. *)
Lemma parse_open_brace_fails :
  forall (depth : nat) (before after : jsstring) (result : ParsedCSS),
    ~ In braceClose after ->
    exists log,
      parse depth (before ++ braceOpen :: after) result = (log, Throw RangeError).
Proof.
  induction depth as [|depth IH]; intros before after result Hc.
  - exists []. reflexivity.
  - remember (before ++ braceOpen :: after) as text eqn:Et.
    assert (Hin : In braceOpen text)
      by (subst text; apply in_or_app; right; left; reflexivity).
    destruct (text_shape text) as [text Hb | text Hb Hs Ho | a b Hs Ho | a b Hs Ho].
    + rewrite (trim_not_blank _ _ Hin braceOpen_not_blank) in Hb. discriminate Hb.
    + contradiction.
    + rewrite parse_semicolon by assumption.
      destruct (after_separator _ _ _ _ _ _ Et Ho) as (before' & ->); [discriminate|].
      destruct (IH before' after (result ++ [splitProperty a]) Hc) as (log & ->).
      destruct (consoleAssert_normal (tupleLength (splitProperty a) =? 2)
                  assertMessage a) as (l & ->).
      eexists. reflexivity.
    + rewrite parse_brace by assumption.
      set (text := a ++ braceOpen :: b) in *.
      destruct (parse depth (slice text (len a + 1) (indexOfChar braceClose text)) [])
        as (l1, [properties | e]) eqn:Ebody.
      * cbn [bind].
        pose proof (findIndex_lower (Z.eqb braceClose) text) as Hl.
        fold (indexOfChar braceClose text) in Hl.
        destruct (Z.eq_dec (indexOfChar braceClose text) (-1)) as [Hm | Hm].
        -- rewrite Hm. change (-1 + 1) with 0. rewrite sliceFrom_0, Et.
           destruct (IH before after (result ++ [Rule (trim a) properties]) Hc)
             as (log & ->).
           eexists. reflexivity.
        -- destruct (findIndex_found (Z.eqb braceClose) text)
             as (a' & c' & b' & E' & Hi & Hc' & _); [unfold indexOfChar in *; lia|].
           apply Z.eqb_eq in Hc'. subst c'.
           fold (indexOfChar braceClose text) in Hi. rewrite Hi.
           replace (sliceFrom text (len a' + 1)) with b'
             by (rewrite E'; symmetry; apply sliceFrom_suffix).
           rewrite E' in Et.
           destruct (after_terminator _ _ _ _ _ _ Et Hc) as (before' & ->);
             [discriminate|].
           destruct (IH before' after (result ++ [Rule (trim a) properties]) Hc)
             as (log & ->).
           eexists. reflexivity.
      * pose proof (parse_throws_RangeError _ _ _ _ _ Ebody). subst e.
        exists l1. reflexivity.
Qed.

(** Two ways of cutting a string at different code units. *)
Lemma two_cuts (x y : Z) a b a' b' :
  a' ++ x :: b' = a ++ y :: b -> x <> y ->
  (exists m, a = a' ++ x :: m /\ b' = m ++ y :: b)
  \/ (exists m, a' = a ++ y :: m /\ b = m ++ x :: b').
Proof.
  revert a. induction a' as [|z a' IH]; intros [|w a] E Hxy; simpl in E;
    injection E as E1 E2.
  - contradiction.
  - left. exists a. subst. split; reflexivity.
  - right. exists a'. subst. split; reflexivity.
  - subst w. destruct (IH a E2 Hxy) as [(m & -> & ->) | (m & -> & ->)].
    + left. exists m. split; reflexivity.
    + right. exists m. split; reflexivity.
Qed.

Lemma same_cut (x : Z) a b before after :
  a ++ x :: b = before ++ x :: after -> ~ In x a ->
  (a = before /\ b = after) \/ exists m, b = m ++ x :: after.
Proof.
  revert before. induction a as [|z a IH]; intros [|w before] E Hx; simpl in E.
  - injection E as E. left. split; [reflexivity | exact E].
  - injection E as _ E. right. exists before. exact E.
  - injection E as E _. exfalso. apply Hx. left. exact E.
  - injection E as -> E.
    destruct (IH before E (fun H => Hx (or_intror H))) as [(-> & ->) | (m & ->)].
    + left. split; reflexivity.
    + right. exists m. reflexivity.
Qed.

Lemma slice_middle a c m rest :
  slice (a ++ c :: m ++ rest) (len a + 1) (len (a ++ c :: m)) = m.
Proof.
  unfold slice. rewrite !relindex_inside.
  - unfold len. rewrite length_app. cbn [List.length].
    replace (Z.to_nat (Z.of_nat (List.length a) + 1)) with (List.length a + 1)%nat by lia.
    replace (Z.to_nat (Z.of_nat (List.length a + S (List.length m))
                       - (Z.of_nat (List.length a) + 1)))
      with (List.length m) by lia.
    rewrite skipn_app, skipn_all2 by lia. cbn [app].
    replace (List.length a + 1 - List.length a)%nat with 1%nat by lia.
    cbn [skipn]. rewrite firstn_app, Nat.sub_diag, firstn_all. cbn [firstn].
    apply app_nil_r.
  - unfold len. rewrite !length_app. cbn [List.length]. rewrite length_app. lia.
  - unfold len. rewrite !length_app. cbn [List.length]. rewrite length_app. lia.
Qed.

Lemma count_absent (c : Z) s : ~ In c s -> count_occ Z.eq_dec s c = 0%nat.
Proof. apply count_occ_not_In. Qed.

(** Where the text after a ['{'] begins with a part without brace and a
    ['}'], the ['{'] is closed. *)
Lemma unclosed_not_closed m rest :
  ~ In braceOpen m -> ~ In braceClose m -> ~ unclosed (m ++ braceClose :: rest).
Proof.
  intros Ho Hc H. specialize (H (List.length m + 1)%nat).
  rewrite firstn_app, firstn_all2 in H by lia.
  replace (List.length m + 1 - List.length m)%nat with 1%nat in H by lia.
  cbn [firstn] in H. rewrite !count_occ_app in H.
  rewrite (count_absent _ _ Ho), (count_absent _ _ Hc) in H.
  vm_compute in H. lia.
Qed.

Lemma unclosed_check after : unclosedb after = true -> unclosed after.
Proof.
  unfold unclosedb. intros H n. rewrite forallb_forall in H.
  destruct (le_lt_dec n (List.length after)) as [Hn | Hn].
  - apply Nat.leb_le, H, in_seq. lia.
  - rewrite firstn_all2 by lia. rewrite <- (firstn_all after).
    apply Nat.leb_le, H, in_seq. lia.
Qed.

(** C5: on a text with a ['{'] that no ['}'] matches, [parse] returns no
    result, whatever the room on the stack: it comes to call itself on
    the same text again and again, and the engine's [RangeError]
    propagates. *)
Theorem parse_unclosed_brace_fails :
  forall (depth : nat) (before after : jsstring) (result : ParsedCSS),
    unclosed after ->
    exists log,
      parse depth (before ++ braceOpen :: after) result = (log, Throw RangeError).
Proof.
  induction depth as [|depth IH]; intros before after result Hu.
  - exists []. reflexivity.
  - remember (before ++ braceOpen :: after) as text eqn:Et.
    assert (Hin : In braceOpen text)
      by (subst text; apply in_or_app; right; left; reflexivity).
    destruct (text_shape text) as [text Hb | text Hb Hs Ho | a b Hs Ho | a b Hs Ho].
    + rewrite (trim_not_blank _ _ Hin braceOpen_not_blank) in Hb. discriminate Hb.
    + contradiction.
    + rewrite parse_semicolon by assumption.
      destruct (after_separator _ _ _ _ _ _ Et Ho) as (before' & ->); [discriminate|].
      destruct (IH before' after (result ++ [splitProperty a]) Hu) as (log & ->).
      destruct (consoleAssert_normal (tupleLength (splitProperty a) =? 2)
                  assertMessage a) as (l & ->).
      eexists. reflexivity.
    + rewrite parse_brace by assumption.
      remember (a ++ braceOpen :: b) as text eqn:E.
      destruct (parse depth (slice text (len a + 1) (indexOfChar braceClose text)) [])
        as (l1, [properties | e]) eqn:Ebody.
      2:{ pose proof (parse_throws_RangeError _ _ _ _ _ Ebody). subst e.
          exists l1. reflexivity. }
      cbn [bind].
      assert (Hnext : forall before',
                 sliceFrom text (indexOfChar braceClose text + 1)
                 = before' ++ braceOpen :: after ->
                 exists log,
                   (let '(l', c) :=
                      parse depth (sliceFrom text (indexOfChar braceClose text + 1))
                            (result ++ [Rule (trim a) properties]) in
                    (l1 ++ l', c)) = (log, Throw RangeError)).
      { intros before' ->.
        destruct (IH before' after (result ++ [Rule (trim a) properties]) Hu)
          as (log & ->).
        eexists. reflexivity. }
      pose proof (findIndex_lower (Z.eqb braceClose) text) as Hl.
      fold (indexOfChar braceClose text) in Hl.
      destruct (Z.eq_dec (indexOfChar braceClose text) (-1)) as [Hm | Hm].
      { apply (Hnext before). rewrite Hm. change (-1 + 1) with 0.
        rewrite sliceFrom_0. exact Et. }
      destruct (findIndex_found (Z.eqb braceClose) text)
        as (a' & c' & b' & E' & Hi & Hc' & Ha'); [unfold indexOfChar in *; lia|].
      apply Z.eqb_eq in Hc'. subst c'. fold (indexOfChar braceClose text) in Hi.
      assert (Hrest : sliceFrom text (indexOfChar braceClose text + 1) = b')
        by (rewrite Hi, E' at 1; apply sliceFrom_suffix).
      assert (Hclose : ~ In braceClose a').
      { intros H. specialize (Ha' _ H). rewrite Z.eqb_refl in Ha'. discriminate. }
      assert (Eab : a' ++ braceClose :: b' = a ++ braceOpen :: b) by congruence.
      rewrite E in Et.
      destruct (two_cuts _ _ _ _ _ _ Eab) as [(m & -> & Eb') | (m & Ea' & Eb)];
        [discriminate| |].
      * (* the first closing brace comes before the first opening one *)
        destruct (same_cut _ _ _ _ _ Et Ho) as [(_ & Hb) | (m' & Hb)].
        -- apply (Hnext m). rewrite Hrest, Eb', Hb. reflexivity.
        -- apply (Hnext (m ++ braceOpen :: m')). rewrite Hrest, Eb', Hb.
           rewrite <- app_assoc. reflexivity.
      * (* it comes after: the body of the rule is [m] *)
        assert (Hcm : ~ In braceClose m).
        { intros H. apply Hclose. rewrite Ea'. apply in_or_app. right. right. exact H. }
        assert (Hbody : slice text (len a + 1) (indexOfChar braceClose text) = m).
        { rewrite Hi, E, Eb, Ea'. apply slice_middle. }
        rewrite Hbody in Ebody.
        destruct (in_dec Z.eq_dec braceOpen m) as [Hom | Hom].
        -- exfalso. apply in_split in Hom as (m1 & m2 & ->).
           destruct (parse_open_brace_fails depth m1 m2 []) as (log & Hf).
           ++ intros H. apply Hcm. apply in_or_app. right. right. exact H.
           ++ rewrite Hf in Ebody. discriminate Ebody.
        -- destruct (same_cut _ _ _ _ _ Et Ho) as [(_ & Hb) | (m' & Hb)].
           ++ exfalso. rewrite Hb in Eb. rewrite Eb in Hu.
              exact (unclosed_not_closed m b' Hom Hcm Hu).
           ++ rewrite Hb in Eb. symmetry in Eb.
              destruct (after_separator _ _ _ _ _ _ Eb Hom) as (before' & Hb');
                [discriminate|].
              apply (Hnext before'). rewrite Hrest. exact Hb'.
Qed.

Lemma parse_unclosed_brace_fails_witness :
  exists log,
    parse 100 (js "a " ++ braceOpen :: js " b { c: d } e: f") []
    = (log, Throw RangeError).
Proof.
  apply (parse_unclosed_brace_fails 100 (js "a ") (js " b { c: d } e: f") []).
  apply unclosed_check. vm_compute. reflexivity.
Defined.

End Parser.

(** ** Compiler *)

Section Compiler.

Lemma classes_fold_merge l : forall a,
  classes (fold_left merge l a) = classes a ++ flat_map classes l.
Proof.
  induction l as [|x l IH]; intros a; simpl.
  - symmetry. apply app_nil_r.
  - rewrite IH. simpl. symmetry. apply app_assoc.
Qed.

Lemma rules_fold_merge l : forall a,
  rules (fold_left merge l a) = rules a ++ flat_map rules l.
Proof.
  induction l as [|x l IH]; intros a; simpl.
  - symmetry. apply app_nil_r.
  - rewrite IH. simpl. symmetry. apply app_assoc.
Qed.

Lemma customProperties_fold_merge l : forall a,
  customProperties (fold_left merge l a)
  = customProperties a ++ flat_map customProperties l.
Proof.
  induction l as [|x l IH]; intros a; simpl.
  - symmetry. apply app_nil_r.
  - rewrite IH. simpl. symmetry. apply app_assoc.
Qed.

(** One class and one rule for each element the compiler maps over. *)
Lemma Forall2_singletons {A} (R : jsstring -> rule -> Prop)
      (f : A -> CompiledCSS) (g : A -> jsstring) (h : A -> rule) l :
  (forall x, In x l -> classes (f x) = [g x] /\ rules (f x) = [h x] /\ R (g x) (h x)) ->
  Forall2 R (flat_map classes (map f l)) (flat_map rules (map f l)).
Proof.
  induction l as [|x l IH]; intros H; simpl.
  - constructor.
  - destruct (H x (or_introl eq_refl)) as (-> & -> & HR). simpl.
    constructor; [exact HR|]. apply IH. intros y Hy. apply H. right. exact Hy.
Qed.

Lemma hw_class_shape data :
  exists token,
    js "hw_" ++ hash data = js "hw_" ++ token
    /\ List.length token = 5%nat
    /\ Forall (fun c => In [c] alphabet) token.
Proof.
  exists (hash data). split; [reflexivity|].
  split; [apply hash_length | apply hash_in_alphabet].
Qed.

Lemma pseudo_not_at tuple :
  isPseudoClassRule tuple = true -> isAtRule tuple = false.
Proof.
  unfold isPseudoClassRule, isAtRule.
  change (js ":") with [58]. change (js "@") with [64].
  destruct (first tuple) as [|c s]; cbn [startsWith]; [discriminate|].
  rewrite !andb_true_r. intros H. apply Z.eqb_eq in H. subst c. reflexivity.
Qed.

(** C10: the classes and the rules of [compile] correspond one to one and
    in order; every class is ["hw_"] followed by a five-symbol token, eight
    code units in all, and the selector of its rule is a dot, the class and
    possibly the fragment of a pseudo-class rule of the input. *)
Theorem compile_classes_match_rules :
  forall properties : ParsedCSS,
    Forall2 (classOfRule properties)
            (classes (compile properties)) (rules (compile properties))
    /\ Forall (fun hwClass => List.length hwClass = 8%nat)
              (classes (compile properties)).
Proof.
  intros properties.
  assert (H2 : Forall2 (classOfRule properties)
                 (classes (compile properties)) (rules (compile properties))).
  { unfold compile. rewrite classes_fold_merge, rules_fold_merge.
    rewrite !flat_map_app. repeat apply Forall2_app.
    - destruct (0 <? Z.of_nat (List.length (filter isSimple properties))); simpl.
      + constructor; [|constructor].
        destruct (hw_class_shape
                    (placeholder ++ js " { "
                     ++ stringifyProperties
                          (filter isNormalProperty (filter isSimple properties))
                     ++ js " }")) as (token & E & Hl & Ha).
        exists token, []. cbn [selector]. rewrite app_nil_r.
        repeat split; try assumption. left. reflexivity.
      + constructor.
    - apply Forall2_singletons with
        (g := fun tuple =>
                js "hw_" ++ hash (first tuple ++ hash
                  (placeholder ++ js " { "
                   ++ stringifyProperties (nestedProperties tuple) ++ js " }")))
        (h := fun tuple =>
                {| ruleBody := placeholder ++ js " { "
                     ++ stringifyProperties (nestedProperties tuple) ++ js " }";
                   selector := js "." ++ (js "hw_" ++ hash (first tuple ++ hash
                     (placeholder ++ js " { "
                      ++ stringifyProperties (nestedProperties tuple) ++ js " }")))
                     ++ first tuple |}).
      intros tuple Hin. split; [reflexivity|]. split; [reflexivity|].
      apply filter_In in Hin as (Hin & Hpseudo).
      apply filter_In in Hin as (Hin & Hnested).
      destruct tuple as [key rest | fragment body]; [discriminate Hnested|].
      eexists (hash _), fragment. cbn [selector first].
      split; [reflexivity|]. split; [apply hash_length|].
      split; [apply hash_in_alphabet|]. split; [reflexivity|].
      right. exists body. split; assumption.
    - apply Forall2_singletons with
        (g := fun tuple =>
                js "hw_" ++ hash (first tuple ++ hash
                  (first tuple ++ js " { " ++ placeholder ++ js " { "
                   ++ stringifyProperties (nestedProperties tuple) ++ js " } }")))
        (h := fun tuple =>
                {| ruleBody := first tuple ++ js " { " ++ placeholder ++ js " { "
                     ++ stringifyProperties (nestedProperties tuple) ++ js " } }";
                   selector := js "." ++ (js "hw_" ++ hash (first tuple ++ hash
                     (first tuple ++ js " { " ++ placeholder ++ js " { "
                      ++ stringifyProperties (nestedProperties tuple) ++ js " } }"))) |}).
      intros tuple Hin. split; [reflexivity|]. split; [reflexivity|].
      eexists (hash _), []. cbn [selector]. rewrite app_nil_r.
      split; [reflexivity|]. split; [apply hash_length|].
      split; [apply hash_in_alphabet|]. split; [reflexivity|]. left. reflexivity. }
  split; [exact H2|].
  induction H2 as [|hwClass r cs rs (token & suffix & -> & Hl & _) _ IH];
    constructor; [|exact IH].
  rewrite length_app, Hl. reflexivity.
Qed.

(** C8: a pseudo-class rule gets the class
    ["hw_" + hash(pseudoFragment + hash(ruleBody))], so the fragment is part
    of the hashed key; the same declaration [color: blue] under [:hover]
    and under [:focus] has the same rule body and two distinct classes. *)
Theorem pseudo_class_fragment_in_hash_key :
  (forall pseudoClass properties,
      isPseudoClassRule (Rule pseudoClass properties) = true ->
      classes (compile [Rule pseudoClass properties])
      = [ js "hw_" ++ hash (pseudoClass
            ++ hash (placeholder ++ js " { "
                     ++ stringifyProperties properties ++ js " }")) ])
  /\ classes (compile [Rule (js ":hover") [Decl (js "color") [js "blue"]]])
     = [ js "hw_Qfa8t" ]
  /\ classes (compile [Rule (js ":focus") [Decl (js "color") [js "blue"]]])
     = [ js "hw_EppsB" ]
  /\ map ruleBody (rules (compile [Rule (js ":hover") [Decl (js "color") [js "blue"]]]))
     = map ruleBody (rules (compile [Rule (js ":focus") [Decl (js "color") [js "blue"]]]))
  /\ js "hw_Qfa8t" <> js "hw_EppsB".
Proof.
  split.
  - intros pseudoClass properties Hp.
    pose proof (pseudo_not_at _ Hp) as Ha.
    unfold compile. cbn [filter isSimple isNested Bool.eqb].
    cbn [filter]. rewrite Hp, Ha. reflexivity.
  - split; [vm_compute; reflexivity|]. split; [vm_compute; reflexivity|].
    split; [vm_compute; reflexivity|]. vm_compute. discriminate.
Qed.

Lemma pseudo_class_fragment_in_hash_key_witness :
  classes (compile [Rule (js ":hover") [Decl (js "color") [js "blue"]]])
  = [ js "hw_" ++ hash (js ":hover"
        ++ hash (placeholder ++ js " { "
                 ++ stringifyProperties [Decl (js "color") [js "blue"]] ++ js " }")) ].
Proof.
  apply (proj1 pseudo_class_fragment_in_hash_key). reflexivity.
Defined.

End Compiler.

(** ** Stylesheet accumulator *)

Section Accumulator.

Lemma eqb_refl (s : jsstring) : JS.eqb s s = true.
Proof.
  induction s as [|c s IH]; simpl; [reflexivity|].
  unfold unit_eqb. rewrite Z.eqb_refl. exact IH.
Qed.

Lemma eqb_eq (a b : jsstring) : JS.eqb a b = true <-> a = b.
Proof.
  split.
  - revert b. induction a as [|x a IH]; intros [|y b] H; simpl in H;
      try discriminate; [reflexivity|].
    apply andb_true_iff in H as (Hxy & Hab). apply Z.eqb_eq in Hxy.
    rewrite (IH _ Hab), Hxy. reflexivity.
  - intros ->. apply eqb_refl.
Qed.

Lemma setAdd_member selectors selector :
  existsb (JS.eqb selector) (setAdd selectors selector) = true.
Proof.
  unfold setAdd. destruct (existsb (JS.eqb selector) selectors) eqn:E; [exact E|].
  rewrite existsb_app. simpl. rewrite eqb_refl. apply orb_true_r.
Qed.

(** Adding a member twice is adding it once. *)
Lemma setAdd_idempotent selectors selector :
  setAdd (setAdd selectors selector) selector = setAdd selectors selector.
Proof.
  unfold setAdd at 1. rewrite setAdd_member. reflexivity.
Qed.

Lemma assocGet_addToEntry sheet body selector :
  assocGet (addToEntry sheet body selector) body
  = option_map (fun v => setAdd v selector) (assocGet sheet body).
Proof.
  induction sheet as [|(k, v) sheet IH]; simpl; [reflexivity|].
  destruct (JS.eqb k body) eqn:E; simpl; rewrite E; [reflexivity | exact IH].
Qed.

Lemma addToEntry_idempotent sheet body selector :
  addToEntry (addToEntry sheet body selector) body selector
  = addToEntry sheet body selector.
Proof.
  induction sheet as [|(k, v) sheet IH]; simpl; [reflexivity|].
  destruct (JS.eqb k body) eqn:E; simpl; rewrite E.
  - rewrite setAdd_idempotent. reflexivity.
  - rewrite IH. reflexivity.
Qed.

Lemma assocGet_app_absent sheet tail body :
  assocGet sheet body = None -> assocGet (sheet ++ tail) body = assocGet tail body.
Proof.
  induction sheet as [|(k, v) sheet IH]; simpl; [reflexivity|].
  destruct (JS.eqb k body); [discriminate | exact IH].
Qed.

Lemma addToEntry_app_absent sheet tail body selector :
  assocGet sheet body = None ->
  addToEntry (sheet ++ tail) body selector = sheet ++ addToEntry tail body selector.
Proof.
  induction sheet as [|(k, v) sheet IH]; simpl; [reflexivity|].
  destruct (JS.eqb k body); [discriminate|]. intros H. rewrite (IH H). reflexivity.
Qed.

(** Merging the same rule body and selector a second time changes
    nothing. *)
Lemma addRule_idempotent sheet body selector :
  addRule (addRule sheet body selector) body selector = addRule sheet body selector.
Proof.
  unfold addRule at 2 3. destruct (assocGet sheet body) as [v|] eqn:E.
  - unfold addRule. rewrite assocGet_addToEntry, E. simpl.
    apply addToEntry_idempotent.
  - unfold addRule. rewrite (assocGet_app_absent _ _ _ E). simpl.
    rewrite eqb_refl. rewrite (addToEntry_app_absent _ _ _ _ E). simpl.
    rewrite eqb_refl. unfold setAdd. simpl. rewrite eqb_refl. reflexivity.
Qed.

Lemma filter_all {A} (p : A -> bool) l : forallb p l = true -> filter p l = l.
Proof.
  induction l as [|x l IH]; simpl; [reflexivity|].
  intros H. apply andb_true_iff in H as (Hx & Hl). rewrite Hx, (IH Hl). reflexivity.
Qed.

Lemma filter_none {A} (p q : A -> bool) l :
  (forall x, p x = true -> q x = false) -> forallb p l = true -> filter q l = [].
Proof.
  intros Hpq. induction l as [|x l IH]; simpl; [reflexivity|].
  intros H. apply andb_true_iff in H as (Hx & Hl). rewrite (Hpq x Hx). exact (IH Hl).
Qed.

(** The compiled form of a non-empty set of simple declarations. *)
Lemma compile_simple properties :
  properties <> [] -> forallb isSimple properties = true ->
  let body := placeholder ++ js " { "
              ++ stringifyProperties (filter isNormalProperty properties) ++ js " }" in
  compile properties
  = {| classes := [js "hw_" ++ hash body];
       customProperties := filter isCustomProperty properties;
       rules := [ {| ruleBody := body; selector := js "." ++ js "hw_" ++ hash body |} ] |}.
Proof.
  intros Hne Hs body. unfold compile.
  rewrite (filter_all _ _ Hs).
  rewrite (filter_none isSimple isNested) by
    (exact Hs || (intros x; unfold isSimple; destruct (isNested x); simpl; congruence)).
  destruct properties as [|x l]; [congruence|]. reflexivity.
Qed.

(** C1 (amended): compiling a non-empty set of simple declarations gives
    one class and one rule whose selector is a dot and that class; the two
    compilations give the same class, hence the same selector, and merging
    both rules into an empty accumulator yields a single map entry whose
    selector set has one member; in any accumulator the second merge
    changes nothing. *)
Theorem same_declarations_one_entry_one_selector :
  forall properties : ParsedCSS,
    properties <> [] -> forallb isSimple properties = true ->
    exists hwClass body,
      classes (compile properties) = [hwClass]
      /\ rules (compile properties)
         = [ {| ruleBody := body; selector := js "." ++ hwClass |} ]
      /\ addRules (rules (compile properties))
                  (addRules (rules (compile properties)) [])
         = [ (body, [js "." ++ hwClass]) ]
      /\ forall sheet,
           addRules (rules (compile properties))
                    (addRules (rules (compile properties)) sheet)
           = addRules (rules (compile properties)) sheet.
Proof.
  intros properties Hne Hs. rewrite (compile_simple properties Hne Hs).
  eexists _, _. cbn [classes rules]. split; [reflexivity|]. split; [reflexivity|].
  split.
  - unfold addRules. cbn [fold_left ruleBody selector].
    unfold addRule at 2. cbn [assocGet app]. apply (addRule_idempotent []).
  - intros sheet. unfold addRules. cbn [fold_left ruleBody selector].
    apply addRule_idempotent.
Qed.

Lemma same_declarations_one_entry_one_selector_witness :
  exists hwClass body,
    classes (compile [Decl (js "color") [js "red"]]) = [hwClass]
    /\ rules (compile [Decl (js "color") [js "red"]])
       = [ {| ruleBody := body; selector := js "." ++ hwClass |} ]
    /\ addRules (rules (compile [Decl (js "color") [js "red"]]))
                (addRules (rules (compile [Decl (js "color") [js "red"]])) [])
       = [ (body, [js "." ++ hwClass]) ]
    /\ forall sheet,
         addRules (rules (compile [Decl (js "color") [js "red"]]))
                  (addRules (rules (compile [Decl (js "color") [js "red"]])) sheet)
         = addRules (rules (compile [Decl (js "color") [js "red"]])) sheet.
Proof.
  apply (same_declarations_one_entry_one_selector [Decl (js "color") [js "red"]]).
  - discriminate.
  - reflexivity.
Defined.

(** C1 as stated fails: the two compilations of [color: red] give the same
    selector, and the set keeps one copy of it, not two members. *)
Lemma two_selector_members_counterexample :
  let compiled := compile [Decl (js "color") [js "red"]] in
  addRules (rules compiled) (addRules (rules compiled) [])
  = [ (placeholder ++ js " { color: red }", [js ".hw_CTY41"]) ]
  /\ ~ exists body selectors,
         addRules (rules compiled) (addRules (rules compiled) []) = [ (body, selectors) ]
         /\ List.length selectors = 2%nat.
Proof.
  intros compiled.
  assert (E : addRules (rules compiled) (addRules (rules compiled) [])
              = [ (placeholder ++ js " { color: red }", [js ".hw_CTY41"]) ])
    by (vm_compute; reflexivity).
  split; [exact E|].
  intros (body & selectors & H & L). rewrite E in H.
  injection H as _ <-. discriminate L.
Qed.

End Accumulator.

(** ** Serialization *)

Section Serialization.

(** A replacement string without ['$'] stands for itself. *)
Lemma getSubstitution_plain matched before after replacement :
  ~ In dollar replacement ->
  getSubstitution matched before after replacement = replacement.
Proof.
  induction replacement as [|c r IH]; intros H; [reflexivity|].
  assert (Hc : c <> dollar) by (intros ->; apply H; left; reflexivity).
  assert (Hr : ~ In dollar r) by (intros Hin; apply H; right; exact Hin).
  unfold dollar in Hc.
  cbn [getSubstitution].
  destruct c as [|p|p]; try (rewrite (IH Hr); reflexivity).
  do 6 (destruct p as [p|p|]; try (rewrite (IH Hr); reflexivity)).
  congruence.
Qed.

Lemma replace_plain text token replacement :
  ~ In dollar replacement ->
  replace text token replacement = substitute text token replacement.
Proof.
  intros H. unfold replace, substitute.
  destruct (indexOf token text); [|reflexivity].
  rewrite (getSubstitution_plain _ _ _ _ H). reflexivity.
Qed.

Lemma In_join c sep l :
  In c (join sep l) -> In c sep \/ exists s, In s l /\ In c s.
Proof.
  induction l as [|x l IH]; simpl; [tauto|].
  destruct l as [|y l].
  - intros H. right. exists x. split; [left; reflexivity | exact H].
  - intros H. apply in_app_or in H as [H | H].
    + right. exists x. split; [left; reflexivity | exact H].
    + apply in_app_or in H as [H | H]; [left; exact H|].
      destruct (IH H) as [Hs | (s & Hs & Hc)]; [left; exact Hs|].
      right. exists s. split; [right; exact Hs | exact Hc].
Qed.

(** Where no selector contains ['$'], the text of the stylesheet is the
    specification's: entries in order, the selectors of each joined by
    [", "] and put in the place of the placeholder, rules joined by a
    newline. *)
Lemma stringifyStylesheet_plain sheet :
  (forall body selectors selector,
      In (body, selectors) sheet -> In selector selectors -> ~ In dollar selector) ->
  stringifyStylesheet sheet = serialize_reference sheet.
Proof.
  intros H. unfold stringifyStylesheet, serialize_reference. f_equal.
  apply map_ext_in. intros (body, selectors) Hin.
  apply replace_plain. intros Hd.
  apply In_join in Hd as [Hd | (s & Hs & Hd)].
  - vm_compute in Hd. intuition discriminate.
  - exact (H body selectors s Hin Hs Hd).
Qed.

(** The keys of the map stay in the order in which they were first
    merged. *)
Lemma addToEntry_keys sheet body selector :
  map fst (addToEntry sheet body selector) = map fst sheet.
Proof.
  induction sheet as [|(k, v) sheet IH]; simpl; [reflexivity|].
  destruct (JS.eqb k body); simpl; [reflexivity | rewrite IH; reflexivity].
Qed.

Lemma addRule_keys sheet body selector :
  map fst (addRule sheet body selector)
  = match assocGet sheet body with
    | Some _ => map fst sheet
    | None => map fst sheet ++ [body]
    end.
Proof.
  unfold addRule. destruct (assocGet sheet body).
  - apply addToEntry_keys.
  - rewrite map_app. reflexivity.
Qed.

(** The two examples of the specification. *)
Lemma stringifyStylesheet_example :
  stringifyStylesheet [ (placeholder ++ js " { color: red; }", [js ".a"; js ".b"]) ]
  = js ".a, .b { color: red; }".
Proof. vm_compute. reflexivity. Qed.

Lemma stringifyStylesheet_cleared sheet :
  stringifyStylesheet (snd (render sheet)) = [].
Proof. reflexivity. Qed.

(** C6: where a selector contains a replacement pattern, the text that
    takes the place of the placeholder is not the joined selectors.  The
    style [:not([x='$&']) { color: red }] on a node leaves one entry in
    the accumulator; the specification's serialization of it puts the
    selector in the place of the placeholder, [stringifyStylesheet] puts
    the selector with [$&] expanded to the placeholder itself. *)
Theorem stringifyStylesheet_expands_replacement_patterns :
  let v := {| vtype := js "div"; class := None;
              style := StyleString (js ":not([x='$&']) { color: red }");
              others := [] |} in
  let sheet := [ (placeholder ++ js " { color: red }",
                  [js ".hw_oSNXC:not([x='$&'])"]) ] in
  hook 3 v []
  = ([], Normal ({| vtype := js "div"; class := Some (js "hw_oSNXC");
                    style := StyleUndefined; others := [] |}, sheet))
  /\ serialize_reference sheet = js ".hw_oSNXC:not([x='$&']) { color: red }"
  /\ stringifyStylesheet sheet
     = js ".hw_oSNXC:not([x='" ++ placeholder ++ js "']) { color: red }"
  /\ stringifyStylesheet sheet <> serialize_reference sheet.
Proof.
  intros v sheet.
  split; [vm_compute; reflexivity|]. split; [vm_compute; reflexivity|].
  split; [vm_compute; reflexivity|]. vm_compute. discriminate.
Qed.

End Serialization.

(** ** The placeholder *)

Section Placeholder.

Lemma node_induction (P : node -> Prop) :
  (forall key rest, P (Decl key rest)) ->
  (forall fragment properties, Forall P properties -> P (Rule fragment properties)) ->
  forall n, P n.
Proof.
  intros HD HR. fix IH 1. intros [key rest | fragment properties].
  - apply HD.
  - apply HR. induction properties as [|n l IHl]; constructor; [apply IH | exact IHl].
Qed.

Lemma isSeparator_spec c :
  isSeparator c = true -> ~ In c placeholder /\ c <> dollar.
Proof.
  unfold isSeparator. intros H. apply andb_true_iff in H as (H1 & H2).
  split.
  - intros Hin. apply negb_true_iff in H1.
    assert (existsb (Z.eqb c) placeholder = true)
      by (apply existsb_exists; exists c; split; [exact Hin | apply Z.eqb_refl]).
    congruence.
  - apply negb_true_iff, Z.eqb_neq in H2. exact H2.
Qed.

Lemma placeholder_not_nil : placeholder <> [].
Proof. discriminate. Qed.

Lemma clean_nil : clean [].
Proof.
  split; [|intros []]. apply occurs_short. vm_compute. lia.
Qed.

Lemma clean_segment a s b : clean (a ++ s ++ b) -> clean s.
Proof.
  intros (Ho & Hd). split.
  - intros H. apply Ho. apply occurs_segment. exact H.
  - intros H. apply Hd. apply in_or_app. right. apply in_or_app. left. exact H.
Qed.

Lemma clean_separator c a b :
  isSeparator c = true -> clean a -> clean b -> clean (a ++ c :: b).
Proof.
  intros Hc (Ha & Hda) (Hb & Hdb). apply isSeparator_spec in Hc as (Hc & Hcd). split.
  - intros H. apply occurs_separator in H as [H | H]; [exact (Ha H) | exact (Hb H) | exact Hc].
  - intros H. apply in_app_or in H as [H | [H | H]]; [exact (Hda H) | exact (Hcd H) | exact (Hdb H)].
Qed.

Lemma clean_literal_app l b :
  forallb isSeparator l = true -> clean b -> clean (l ++ b).
Proof.
  induction l as [|c l IH]; intros Hl Hb; [exact Hb|].
  apply andb_true_iff in Hl as (Hc & Hl).
  apply (clean_separator c [] (l ++ b) Hc clean_nil). exact (IH Hl Hb).
Qed.

(** A literal made of separators keeps what is around it apart. *)
Lemma clean_wrap c l a b :
  forallb isSeparator (c :: l) = true -> clean a -> clean b ->
  clean (a ++ (c :: l) ++ b).
Proof.
  intros Hl Ha Hb. apply andb_true_iff in Hl as (Hc & Hl).
  apply (clean_separator c a (l ++ b) Hc Ha). exact (clean_literal_app l b Hl Hb).
Qed.

Lemma clean_short s :
  (List.length s < 48)%nat -> ~ In dollar s -> clean s.
Proof.
  intros H Hd. split; [|exact Hd]. apply occurs_short. exact H.
Qed.

Lemma clean_join c l parts :
  forallb isSeparator (c :: l) = true -> Forall clean parts ->
  clean (join (c :: l) parts).
Proof.
  intros Hl. induction parts as [|x parts IH]; intros H.
  - exact clean_nil.
  - inversion H as [|? ? Hx Hp]; subst. destruct parts as [|y parts].
    + exact Hx.
    + change (join (c :: l) (x :: y :: parts))
        with (x ++ (c :: l) ++ join (c :: l) (y :: parts)).
      apply clean_wrap; [exact Hl | exact Hx | exact (IH Hp)].
Qed.

Lemma clean_toString : forall n, cleanNode n -> clean (toString n).
Proof.
  apply (node_induction (fun n => cleanNode n -> clean (toString n))).
  - intros key rest H. inversion H; subst. cbn [toString].
    apply (clean_join 44 []); [reflexivity | constructor; assumption].
  - intros fragment properties IH H. inversion H as [|? ? Hf Hp]; subst.
    cbn [toString]. apply (clean_join 44 []); [reflexivity|].
    constructor; [exact Hf|]. constructor; [|constructor].
    apply (clean_join 44 []); [reflexivity|].
    apply Forall_map. rewrite Forall_forall in *. intros n Hn.
    apply (IH n Hn). exact (Hp n Hn).
Qed.

Lemma clean_joinTuple n : cleanNode n -> clean (joinTuple n).
Proof.
  intros H. destruct H as [key rest Hk Hr | fragment properties Hf Hp]; cbn [joinTuple].
  - apply (clean_join 58 [32]); [reflexivity | constructor; assumption].
  - apply (clean_join 58 [32]); [reflexivity|].
    constructor; [exact Hf|]. constructor; [|constructor].
    apply (clean_join 44 []); [reflexivity|].
    apply Forall_map. rewrite Forall_forall in *. intros n Hn.
    apply clean_toString. exact (Hp n Hn).
Qed.

Lemma clean_stringifyProperties properties :
  Forall cleanNode properties -> clean (stringifyProperties properties).
Proof.
  intros H. unfold stringifyProperties.
  apply (clean_join 59 [32]); [reflexivity|].
  apply Forall_map. rewrite Forall_forall in *. intros n Hn.
  apply clean_joinTuple. exact (H n Hn).
Qed.


Lemma replace_at pre post replacement :
  ~ In dollar replacement ->
  indexOf placeholder (pre ++ placeholder ++ post) = Some (List.length pre) ->
  replace (pre ++ placeholder ++ post) placeholder replacement
  = pre ++ replacement ++ post.
Proof.
  intros Hd Hi. unfold replace. rewrite Hi.
  rewrite (getSubstitution_plain _ _ _ _ Hd).
  rewrite firstn_app, Nat.sub_diag, firstn_all. cbn [firstn]. rewrite app_nil_r.
  rewrite skipn_app, skipn_all2 by lia. cbn [app].
  replace (List.length pre + List.length placeholder - List.length pre)%nat
    with (List.length placeholder) by lia.
  rewrite skipn_app, skipn_all, Nat.sub_diag. reflexivity.
Qed.

(** A rule body with the placeholder between separators: whatever clean
    text replaces the placeholder, the result is clean. *)
Lemma bodyOk_first c post :
  isSeparator c = true -> clean post -> bodyOk (placeholder ++ c :: post).
Proof.
  intros Hc Hp replacement Hr.
  pose proof (replace_at [] (c :: post) replacement (proj2 Hr) (indexOf_here _ _)) as E.
  cbn [app] in E. rewrite E. apply clean_separator; assumption.
Qed.

Lemma bodyOk_inside pre c c' post :
  isSeparator c = true -> isSeparator c' = true -> clean pre -> clean post ->
  bodyOk (pre ++ c :: placeholder ++ c' :: post).
Proof.
  intros Hc Hc' Hpre Hpost replacement Hr.
  assert (Hi : indexOf placeholder (pre ++ c :: placeholder ++ c' :: post)
               = Some (List.length (pre ++ [c]))).
  { rewrite indexOf_separator, indexOf_here.
    - cbn [option_map]. rewrite length_app. cbn [List.length]. f_equal. lia.
    - exact (proj1 (isSeparator_spec c Hc)).
    - exact placeholder_not_nil.
    - exact (proj1 Hpre). }
  pose proof (replace_at (pre ++ [c]) (c' :: post) replacement (proj2 Hr)) as E.
  rewrite <- !app_assoc in E. cbn [app] in E. rewrite (E Hi).
  apply clean_separator; [exact Hc | exact Hpre|].
  apply clean_separator; assumption.
Qed.

Lemma alphabet_no_dollar c : In [c] alphabet -> c <> dollar.
Proof.
  intros H ->. vm_compute in H.
  repeat (destruct H as [H | H]; [discriminate H|]). exact H.
Qed.

Lemma hash_no_dollar data : ~ In dollar (hash data).
Proof.
  pose proof (hash_in_alphabet data) as H. rewrite Forall_forall in H.
  intros Hin. exact (alphabet_no_dollar dollar (H dollar Hin) eq_refl).
Qed.

Lemma clean_hw_selector data : clean (js "." ++ js "hw_" ++ hash data).
Proof.
  apply clean_short.
  - rewrite !length_app, hash_length. vm_compute. lia.
  - intros H. apply in_app_or in H as [H | H];
      [vm_compute in H; intuition discriminate|].
    apply in_app_or in H as [H | H]; [vm_compute in H; intuition discriminate|].
    exact (hash_no_dollar data H).
Qed.

Lemma clean_pseudo_selector data tuple :
  isPseudoClassRule tuple = true -> clean (first tuple) ->
  clean (js "." ++ (js "hw_" ++ hash data) ++ first tuple).
Proof.
  unfold isPseudoClassRule. change (js ":") with [58].
  destruct (first tuple) as [|c fragment]; cbn [startsWith]; [discriminate|].
  rewrite andb_true_r. intros Hc Hf. apply Z.eqb_eq in Hc. subst c.
  replace (js "." ++ (js "hw_" ++ hash data) ++ 58 :: fragment)
    with ((js "." ++ js "hw_" ++ hash data) ++ 58 :: fragment)
    by (rewrite <- !app_assoc; reflexivity).
  apply clean_separator; [reflexivity | apply clean_hw_selector|].
  apply (clean_segment [58] fragment []). rewrite app_nil_r. exact Hf.
Qed.

Lemma cleanNode_first tuple : cleanNode tuple -> clean (first tuple).
Proof. intros [key rest Hk _ | fragment properties Hf _]; assumption. Qed.

Lemma cleanNode_nested tuple : cleanNode tuple -> Forall cleanNode (nestedProperties tuple).
Proof. intros [key rest _ _ | fragment properties _ Hp]; [constructor | exact Hp]. Qed.

Lemma Forall_filter {A} (P : A -> Prop) f l : Forall P l -> Forall P (filter f l).
Proof.
  rewrite !Forall_forall. intros H x Hx. apply filter_In in Hx as (Hx & _). exact (H x Hx).
Qed.

Lemma Forall_flat_map_rules {A} (P : rule -> Prop) (f : A -> CompiledCSS) l :
  (forall x, In x l -> Forall P (rules (f x))) -> Forall P (flat_map rules (map f l)).
Proof.
  induction l as [|x l IH]; intros H; simpl; [constructor|].
  apply Forall_app. split; [apply H; left; reflexivity|].
  apply IH. intros y Hy. apply H. right. exact Hy.
Qed.

(** Every rule compiled from clean declarations has a body in which the
    placeholder can be replaced cleanly, and a clean selector. *)
Lemma compile_clean properties :
  Forall cleanNode properties ->
  Forall (fun r => bodyOk (ruleBody r) /\ clean (selector r)) (rules (compile properties)).
Proof.
  intros H. unfold compile. rewrite rules_fold_merge, flat_map_app.
  assert (Hbody : forall l, Forall cleanNode l ->
            clean (js "{ " ++ stringifyProperties l ++ js " }")).
  { intros l Hl. apply (clean_literal_app (js "{ ")); [reflexivity|].
    rewrite <- (app_nil_r (js " }")). apply (clean_wrap 32 [125]); [reflexivity| |apply clean_nil].
    apply clean_stringifyProperties. exact Hl. }
  repeat (apply Forall_app; split).
  - destruct (0 <? Z.of_nat (List.length (filter isSimple properties))); cbn [rules];
      [|constructor].
    constructor; [|constructor]. cbn [ruleBody selector]. split.
    + apply (bodyOk_first 32); [reflexivity|]. apply Hbody.
      apply Forall_filter, Forall_filter. exact H.
    + apply clean_hw_selector.
  - apply Forall_flat_map_rules. intros tuple Hin. cbn [rules].
    apply filter_In in Hin as (Hin & Hpseudo). apply filter_In in Hin as (Hin & _).
    rewrite Forall_forall in H. specialize (H tuple Hin).
    constructor; [|constructor]. cbn [ruleBody selector]. split.
    + apply (bodyOk_first 32); [reflexivity|]. apply Hbody.
      apply cleanNode_nested. exact H.
    + apply clean_pseudo_selector; [exact Hpseudo | apply cleanNode_first; exact H].
  - apply Forall_flat_map_rules. intros tuple Hin. cbn [rules].
    apply filter_In in Hin as (Hin & _). apply filter_In in Hin as (Hin & _).
    rewrite Forall_forall in H. specialize (H tuple Hin).
    constructor; [|constructor]. cbn [ruleBody selector]. split.
    + replace (first tuple ++ js " { " ++ placeholder ++ js " { "
               ++ stringifyProperties (nestedProperties tuple) ++ js " } }")
        with ((first tuple ++ js " {") ++ 32 :: placeholder ++ 32
              :: (js "{ " ++ stringifyProperties (nestedProperties tuple) ++ js " }")
                 ++ js " }")
        by (rewrite <- !app_assoc; reflexivity).
      apply bodyOk_inside; try reflexivity.
      * rewrite <- (app_nil_r (js " {")). apply (clean_wrap 32 [123]);
          [reflexivity | apply cleanNode_first; exact H | apply clean_nil].
      * rewrite <- (app_nil_r (js " }")). apply (clean_wrap 32 [125]);
          [reflexivity | | apply clean_nil].
        apply Hbody. apply cleanNode_nested. exact H.
    + apply clean_hw_selector.
Qed.

Lemma setAdd_clean selectors selector :
  Forall clean selectors -> clean selector -> Forall clean (setAdd selectors selector).
Proof.
  intros Hs Hx. unfold setAdd. destruct (existsb (JS.eqb selector) selectors); [exact Hs|].
  apply Forall_app. split; [exact Hs | constructor; [exact Hx | constructor]].
Qed.

Lemma addToEntry_ok sheet body selector :
  Forall entryOk sheet -> clean selector ->
  Forall entryOk (addToEntry sheet body selector).
Proof.
  intros H Hx. induction H as [|(k, v) sheet (Hb & Hv) Hs IH]; simpl; [constructor|].
  destruct (JS.eqb k body).
  - constructor; [|exact Hs]. split; [exact Hb | apply setAdd_clean; assumption].
  - constructor; [split; assumption | exact IH].
Qed.

Lemma addRule_ok sheet body selector :
  Forall entryOk sheet -> bodyOk body -> clean selector ->
  Forall entryOk (addRule sheet body selector).
Proof.
  intros H Hb Hx. unfold addRule. destruct (assocGet sheet body).
  - apply addToEntry_ok; assumption.
  - apply Forall_app. split; [exact H|]. constructor; [|constructor].
    split; [exact Hb | constructor; [exact Hx | constructor]].
Qed.

Lemma addRules_ok rules sheet :
  Forall (fun r => bodyOk (ruleBody r) /\ clean (selector r)) rules ->
  Forall entryOk sheet -> Forall entryOk (addRules rules sheet).
Proof.
  unfold addRules. intros Hr. revert sheet.
  induction Hr as [|r rules (Hb & Hx) _ IH]; intros sheet Hs; simpl; [exact Hs|].
  apply IH. apply addRule_ok; assumption.
Qed.

(** The text of a stylesheet whose entries are in order is clean. *)
Lemma stringifyStylesheet_clean sheet :
  Forall entryOk sheet -> clean (stringifyStylesheet sheet).
Proof.
  intros H. unfold stringifyStylesheet. apply (clean_join 10 []); [reflexivity|].
  apply Forall_map. rewrite Forall_forall in *. intros (body, selectors) Hin.
  destruct (H _ Hin) as (Hb & Hs). apply Hb.
  apply (clean_join 44 [32]); [reflexivity | exact Hs].
Qed.

Lemma slice_segment s i j : exists a b, s = a ++ slice s i j ++ b.
Proof.
  unfold slice.
  set (m := Z.to_nat (relindex (len s) i)).
  set (n := Z.to_nat (relindex (len s) j - relindex (len s) i)).
  exists (firstn m s), (skipn n (skipn m s)).
  rewrite firstn_skipn. symmetry. apply firstn_skipn.
Qed.

Lemma sliceFrom_segment s i : exists a b, s = a ++ sliceFrom s i ++ b.
Proof.
  unfold sliceFrom. exists (firstn (Z.to_nat (relindex (len s) i)) s), [].
  rewrite app_nil_r. symmetry. apply firstn_skipn.
Qed.

Lemma clean_slice s i j : clean s -> clean (slice s i j).
Proof.
  intros H. destruct (slice_segment s i j) as (a & b & E). rewrite E in H.
  exact (clean_segment _ _ _ H).
Qed.

Lemma clean_sliceFrom s i : clean s -> clean (sliceFrom s i).
Proof.
  intros H. destruct (sliceFrom_segment s i) as (a & b & E). rewrite E in H.
  exact (clean_segment _ _ _ H).
Qed.

Lemma clean_trim s : clean s -> clean (trim s).
Proof.
  intros H. destruct (trim_segment s) as (a & b & E & _). rewrite E in H.
  exact (clean_segment _ _ _ H).
Qed.

Lemma split_segments c s :
  (exists b, s = fst (split c s) ++ b)
  /\ Forall (fun piece => exists a b, s = a ++ piece ++ b) (snd (split c s)).
Proof.
  induction s as [|x s ((b & Eh) & IH)].
  - split; [exists []; reflexivity | constructor].
  - cbn [split]. destruct (split c s) as (h, t). cbn [fst snd] in *.
    assert (Ht : Forall (fun piece => exists a b, x :: s = a ++ piece ++ b) t).
    { rewrite Forall_forall in *. intros piece Hp.
      destruct (IH piece Hp) as (a' & b' & E). exists (x :: a'), b'.
      rewrite E at 1. reflexivity. }
    destruct (x =? c); cbn [fst snd].
    + split; [exists (x :: s); reflexivity|].
      constructor; [|exact Ht]. exists [x], b. rewrite Eh at 1. reflexivity.
    + split; [|exact Ht]. exists b. rewrite Eh at 1. reflexivity.
Qed.

Lemma clean_split c s :
  clean s -> clean (fst (split c s)) /\ Forall clean (snd (split c s)).
Proof.
  intros H. destruct (split_segments c s) as ((b & Eh) & Ht). split.
  - apply (clean_segment [] _ b). cbn [app]. rewrite <- Eh. exact H.
  - rewrite Forall_forall in *. intros piece Hp.
    destruct (Ht piece Hp) as (a' & b' & E). apply (clean_segment a' _ b').
    rewrite <- E. exact H.
Qed.

Lemma cleanNode_splitProperty line : clean line -> cleanNode (splitProperty line).
Proof.
  intros H. rewrite splitProperty_parts.
  destruct (clean_split colon line H) as (Hk & Hr).
  constructor; [apply clean_trim; exact Hk|].
  apply Forall_map. rewrite Forall_forall in *. intros piece Hp.
  apply clean_trim. exact (Hr piece Hp).
Qed.

(** [parse] puts nothing in its result that is not in the text. *)
Lemma parse_clean depth : forall text result log parsed,
  clean text -> Forall cleanNode result ->
  parse depth text result = (log, Normal parsed) -> Forall cleanNode parsed.
Proof.
  induction depth as [|depth IH]; intros text result log parsed Ht Hr H;
    [discriminate H|].
  assert (Hadd : forall n, cleanNode n -> Forall cleanNode (result ++ [n]))
    by (intros n Hn; apply Forall_app; split; [exact Hr | constructor; [exact Hn | constructor]]).
  destruct (text_shape text) as [text Hb | text Hb Hs Ho | a b Hs Ho | a b Hs Ho].
  - rewrite parse_blank in H by exact Hb. injection H as _ <-. exact Hr.
  - rewrite parse_last in H by assumption.
    apply bind_normal in H as (l1 & u & l2 & _ & H & _). injection H as _ <-.
    apply Hadd, cleanNode_splitProperty. exact Ht.
  - rewrite parse_semicolon in H by assumption.
    apply bind_normal in H as (l1 & u & l2 & _ & H & _).
    apply (IH _ _ _ _) in H; [exact H | |].
    + apply (clean_segment (a ++ [semicolon]) b []).
      rewrite app_nil_r, <- app_assoc. exact Ht.
    + apply Hadd, cleanNode_splitProperty. exact (clean_segment [] a _ Ht).
  - rewrite parse_brace in H by assumption.
    apply bind_normal in H as (l1 & properties & l2 & Hbody & H & _).
    apply (IH _ _ _ _ (clean_slice _ _ _ Ht) (Forall_nil _)) in Hbody.
    apply (IH _ _ _ _ (clean_sliceFrom _ _ Ht)) in H; [exact H|].
    apply Hadd. constructor; [|exact Hbody].
    apply clean_trim. exact (clean_segment [] a _ Ht).
Qed.

Lemma cleanText_spec text : cleanText text = true -> clean text.
Proof.
  unfold cleanText. intros H. apply andb_true_iff in H as (H1 & H2).
  apply negb_true_iff in H1, H2. split.
  - apply includes_false_iff. exact H1.
  - intros Hin.
    assert (existsb (Z.eqb dollar) text = true)
      by (apply existsb_exists; exists dollar; split; [exact Hin | apply Z.eqb_refl]).
    congruence.
Qed.

Lemma hook_ok depth v sheet log v' sheet' :
  cleanStyle v = true -> Forall entryOk sheet ->
  hook depth v sheet = (log, Normal (v', sheet')) -> Forall entryOk sheet'.
Proof.
  unfold cleanStyle, hook. intros Hc Hs H.
  destruct (style v) as [|text|typeofStyle].
  - injection H as _ _ <-. exact Hs.
  - apply bind_normal in H as (l1 & parsed & l2 & Hp & H & _).
    injection H as _ _ <-. apply addRules_ok; [|exact Hs].
    apply compile_clean.
    exact (parse_clean _ _ _ _ _ (cleanText_spec _ Hc) (Forall_nil _) Hp).
  - injection H as _ _ <-. exact Hs.
Qed.

Lemma hookAll_ok depth nodes : forall sheet log nodes' sheet',
  forallb cleanStyle nodes = true -> Forall entryOk sheet ->
  hookAll depth nodes sheet = (log, Normal (nodes', sheet')) -> Forall entryOk sheet'.
Proof.
  induction nodes as [|v nodes IH]; intros sheet log nodes' sheet' Hc Hs H.
  - injection H as _ _ <-. exact Hs.
  - cbn [forallb] in Hc. apply andb_true_iff in Hc as (Hv & Hc).
    cbn [hookAll] in H.
    apply bind_normal in H as (l1 & (v1, sheet1) & l2 & Hh & H & _).
    apply bind_normal in H as (l3 & (vs, sheet2) & l4 & Ha & H & _).
    injection H as _ _ <-. cbn [snd fst] in *.
    apply (IH _ _ _ _ Hc (hook_ok _ _ _ _ _ _ Hv Hs Hh) Ha).
Qed.

(** C7 (amended): when no style string contains the placeholder or the
    character ['$'], the placeholder does not occur in the text of the
    stylesheet that a render pass accumulates from an empty one. *)
Theorem placeholder_not_in_stylesheet_text :
  forall (depth : nat) (nodes : list vnode) log nodes' sheet,
    forallb cleanStyle nodes = true ->
    hookAll depth nodes [] = (log, Normal (nodes', sheet)) ->
    includes placeholder (stringifyStylesheet sheet) = false.
Proof.
  intros depth nodes log nodes' sheet Hc H.
  apply includes_false_iff.
  exact (proj1 (stringifyStylesheet_clean sheet
                  (hookAll_ok depth nodes [] log nodes' sheet Hc (Forall_nil _) H))).
Qed.

Lemma placeholder_not_in_stylesheet_text_witness :
  let nodes :=
    [ {| vtype := js "div"; class := Some (js "box");
         style := StyleString (js "color: red; --x: 1; :hover { color: blue }");
         others := [] |};
      {| vtype := js "p"; class := None;
         style := StyleString (js "@media print { color: red }");
         others := [] |} ] in
  exists log nodes' sheet,
    hookAll 9 nodes [] = (log, Normal (nodes', sheet))
    /\ includes placeholder (stringifyStylesheet sheet) = false.
Proof.
  intros nodes. eexists _, _, _. split.
  - vm_compute. reflexivity.
  - eapply (placeholder_not_in_stylesheet_text 9 nodes).
    + vm_compute. reflexivity.
    + vm_compute. reflexivity.
Defined.

(** C7 as stated fails on a declaration whose value is the placeholder,
    of which [replace] replaces the first occurrence only, and on a
    selector fragment with the replacement pattern [$&], which [replace]
    expands to the placeholder. *)
Lemma placeholder_in_stylesheet_counterexample :
  (exists log nodes' sheet,
      hookAll 9 [ {| vtype := js "div"; class := None;
                     style := StyleString (js "color: " ++ placeholder);
                     others := [] |} ] []
      = (log, Normal (nodes', sheet))
      /\ stringifyStylesheet sheet = js ".hw_dxv0x { color: " ++ placeholder ++ js " }"
      /\ includes placeholder (stringifyStylesheet sheet) = true)
  /\ (exists log nodes' sheet,
         cleanText (js ":not([x='$&']) { color: red }") = false
         /\ includes placeholder (js ":not([x='$&']) { color: red }") = false
         /\ hookAll 9 [ {| vtype := js "div"; class := None;
                           style := StyleString (js ":not([x='$&']) { color: red }");
                           others := [] |} ] []
            = (log, Normal (nodes', sheet))
         /\ includes placeholder (stringifyStylesheet sheet) = true).
Proof.
  split.
  - eexists _, _, _. split; [vm_compute; reflexivity|].
    split; vm_compute; reflexivity.
  - eexists _, _, _. split; [vm_compute; reflexivity|].
    split; [vm_compute; reflexivity|].
    split; vm_compute; reflexivity.
Qed.

End Placeholder.

(** ** Per-node hook *)

Section Hook.

(** C9: on a node whose style is absent or not a string, the hook throws
    nothing, logs nothing or one warning, and returns the node and the
    stylesheet as they were. *)
Theorem hook_passes_non_string_through :
  forall (depth : nat) (v : vnode) (stylesheet : Stylesheet),
    (forall text, style v <> StyleString text) ->
    exists log,
      hook depth v stylesheet = (log, Normal (v, stylesheet))
      /\ (log = [] \/ exists message, log = [Warning message]).
Proof.
  intros depth v stylesheet H. unfold hook.
  destruct (style v) as [|text|typeofStyle] eqn:E.
  - exists []. split; [reflexivity | left; reflexivity].
  - exfalso. exact (H text eq_refl).
  - eexists. split; [reflexivity|]. right. eexists. reflexivity.
Qed.

Lemma hook_passes_non_string_through_witness :
  exists log,
    hook 0 {| vtype := js "div"; class := Some (js "box");
              style := StyleOther (js "object"); others := [] |} []
    = (log, Normal ({| vtype := js "div"; class := Some (js "box");
                       style := StyleOther (js "object"); others := [] |}, []))
    /\ (log = [] \/ exists message, log = [Warning message]).
Proof.
  apply (hook_passes_non_string_through 0
           {| vtype := js "div"; class := Some (js "box");
              style := StyleOther (js "object"); others := [] |} []).
  intros text. discriminate.
Defined.

End Hook.

(** ** The examples of the specification *)

Section Examples.

Example parse_terminated :
  parse 9 (js "color: red;") [] = ([], Normal [Decl (js "color") [js "red"]]).
Proof. vm_compute. reflexivity. Qed.

Example parse_unterminated :
  parse 9 (js "color:red") [] = ([], Normal [Decl (js "color") [js "red"]]).
Proof. vm_compute. reflexivity. Qed.

Example parse_nested_rule :
  parse 9 (js "color: red; :hover { color: blue; }") []
  = ([], Normal [ Decl (js "color") [js "red"];
                  Rule (js ":hover") [Decl (js "color") [js "blue"]] ]).
Proof. vm_compute. reflexivity. Qed.

Example compile_custom_property :
  compile [Decl (js "color") [js "red"]; Decl (js "--x") [js "1"]]
  = {| classes := [js "hw_CTY41"];
       customProperties := [Decl (js "--x") [js "1"]];
       rules := [ {| ruleBody := placeholder ++ js " { color: red }";
                     selector := js ".hw_CTY41" |} ] |}.
Proof. vm_compute. reflexivity. Qed.

Example compile_at_rule :
  rules (compile [Rule (js "@media print") [Decl (js "color") [js "red"]]])
  = [ {| ruleBody := js "@media print { " ++ placeholder ++ js " { color: red } }";
         selector := js ".hw_YHWl6" |} ].
Proof. vm_compute. reflexivity. Qed.

Example hook_rewrites_node :
  hook 9 {| vtype := js "div"; class := Some (js "box");
            style := StyleString (js "color: red; --x: 1"); others := [] |} []
  = ([], Normal ({| vtype := js "div"; class := Some (js "box hw_CTY41");
                    style := StyleString (js "--x: 1"); others := [] |},
                 [ (placeholder ++ js " { color: red }", [js ".hw_CTY41"]) ])).
Proof. vm_compute. reflexivity. Qed.

End Examples.

(** * Further properties *)

(** ** Parser, further *)

Section ParserMore.

Lemma consoleAssert_cases condition message argument :
  consoleAssert condition message argument = ([], Normal tt)
  \/ consoleAssert condition message argument
     = ([AssertionFailed message argument], Normal tt).
Proof. destruct condition; [left | right]; reflexivity. Qed.

(** X1: the [result] argument of [parse] is only appended to: a call with
    a result so far logs, throws or returns as the call on the empty
    result does, and returns the result so far followed by what that call
    returns. *)
Theorem parse_appends_to_result :
  forall (depth : nat) (text : jsstring) (result : ParsedCSS),
    parse depth text result = mapNormal (app result) (parse depth text []).
Proof.
  induction depth as [|depth IH]; intros text result; [reflexivity|].
  destruct (text_shape text) as [text Hb | text Hb Hs Ho | a b Hs Ho | a b Hs Ho].
  - rewrite !parse_blank by exact Hb. cbn. rewrite app_nil_r. reflexivity.
  - rewrite !parse_last by assumption.
    destruct (consoleAssert_cases (tupleLength (splitProperty text) =? 2)
                assertMessage text) as [-> | ->]; reflexivity.
  - rewrite !parse_semicolon by assumption.
    rewrite (IH b (result ++ [splitProperty a])), (IH b ([] ++ [splitProperty a])).
    destruct (consoleAssert_cases (tupleLength (splitProperty a) =? 2)
                assertMessage a) as [-> | ->];
      destruct (parse depth b []) as (l, [r | e]); cbn;
      rewrite <- ?app_assoc; reflexivity.
  - rewrite !parse_brace by assumption.
    destruct (parse depth _ []) as (l1, [properties | e]); [|reflexivity].
    cbn [bind].
    rewrite (IH _ (result ++ [Rule (trim a) properties])),
            (IH _ ([] ++ [Rule (trim a) properties])).
    destruct (parse depth _ []) as (l, [r | e]); cbn;
      rewrite <- ?app_assoc; reflexivity.
Qed.

(** X2: what [parse] returns does not depend on the room on the stack:
    with more room it logs and returns the same. *)
Theorem parse_stack_monotone :
  forall (depth depth' : nat) (text : jsstring) (result : ParsedCSS) log parsed,
    (depth <= depth')%nat ->
    parse depth text result = (log, Normal parsed) ->
    parse depth' text result = (log, Normal parsed).
Proof.
  induction depth as [|depth IH]; intros depth' text result log parsed Hle H;
    [discriminate H|].
  destruct depth' as [|depth']; [lia|]. apply le_S_n in Hle.
  destruct (text_shape text) as [text Hb | text Hb Hs Ho | a b Hs Ho | a b Hs Ho].
  - rewrite parse_blank in * by exact Hb. exact H.
  - rewrite parse_last in * by assumption. exact H.
  - rewrite parse_semicolon in * by assumption.
    apply bind_normal in H as (l1 & u & l2 & -> & H & ->).
    rewrite (IH depth' _ _ _ _ Hle H). reflexivity.
  - rewrite parse_brace in * by assumption.
    apply bind_normal in H as (l1 & properties & l2 & Hbody & H & ->).
    rewrite (IH depth' _ _ _ _ Hle Hbody). cbn [bind].
    rewrite (IH depth' _ _ _ _ Hle H). reflexivity.
Qed.

Lemma parse_stack_monotone_witness :
  parse 20 (js "color: red; :hover { color: blue }") []
  = ([], Normal [ Decl (js "color") [js "red"];
                  Rule (js ":hover") [Decl (js "color") [js "blue"]] ]).
Proof.
  apply (parse_stack_monotone 3 20).
  - lia.
  - vm_compute. reflexivity.
Defined.

Lemma findIndex_at p a c b :
  p c = true -> (forall x, In x a -> p x = false) ->
  findIndex p (a ++ c :: b) = len a.
Proof.
  intros Hc. induction a as [|x a IH]; intros Ha; simpl.
  - rewrite Hc. reflexivity.
  - rewrite (Ha x (or_introl eq_refl)), IH by (intros y Hy; apply Ha; right; exact Hy).
    destruct (len a <? 0) eqn:E; [apply Z.ltb_lt in E; unfold len in E; lia|].
    unfold len. simpl. lia.
Qed.

Lemma indexOfChar_at c a b :
  ~ In c a -> indexOfChar c (a ++ c :: b) = len a.
Proof.
  intros H. apply findIndex_at; [apply Z.eqb_refl|].
  intros x Hx. apply Z.eqb_neq. intros ->. exact (H Hx).
Qed.

Lemma not_in_app (c : Z) a b : ~ In c a -> ~ In c b -> ~ In c (a ++ b).
Proof. intros Ha Hb H. apply in_app_or in H as [H | H]; tauto. Qed.

(** X3: a selector fragment without [';'], ['{'] and ['}'], an opening
    brace, a body without ['}'] and a closing brace: the body is parsed on
    its own, the rule is the trimmed fragment with what the body gives,
    and [parse] goes on after the closing brace; what the inner call logs
    or throws is logged or thrown. *)
Theorem parse_nested_rule_step :
  forall (depth : nat) (fragment body rest : jsstring) (result : ParsedCSS),
    ~ In semicolon fragment -> ~ In braceOpen fragment -> ~ In braceClose fragment ->
    ~ In braceClose body ->
    parse (S depth) (fragment ++ braceOpen :: body ++ braceClose :: rest) result
    = (properties <- parse depth body [] ;;
       parse depth rest (result ++ [Rule (trim fragment) properties])).
Proof.
  intros depth fragment body rest result Hs Ho Hc Hb.
  rewrite parse_brace by assumption.
  assert (Hi : indexOfChar braceClose (fragment ++ braceOpen :: body ++ braceClose :: rest)
               = len (fragment ++ braceOpen :: body)).
  { replace (fragment ++ braceOpen :: body ++ braceClose :: rest)
      with ((fragment ++ braceOpen :: body) ++ braceClose :: rest)
      by (rewrite <- app_assoc; reflexivity).
    apply indexOfChar_at. apply not_in_app; [exact Hc|].
    intros [H | H]; [discriminate H | exact (Hb H)]. }
  rewrite Hi, slice_middle.
  replace (sliceFrom (fragment ++ braceOpen :: body ++ braceClose :: rest)
                     (len (fragment ++ braceOpen :: body) + 1)) with rest.
  - reflexivity.
  - replace (fragment ++ braceOpen :: body ++ braceClose :: rest)
      with ((fragment ++ braceOpen :: body) ++ braceClose :: rest)
      by (rewrite <- app_assoc; reflexivity).
    symmetry. apply sliceFrom_suffix.
Qed.

Lemma parse_nested_rule_step_witness :
  parse 3 (js ":hover " ++ braceOpen :: js " color: blue " ++ braceClose
              :: js " margin: 0") []
  = (properties <- parse 2 (js " color: blue ") [] ;;
     parse 2 (js " margin: 0") ([] ++ [Rule (trim (js ":hover ")) properties])).
Proof.
  apply (parse_nested_rule_step 2 (js ":hover ") (js " color: blue ")
           (js " margin: 0") []); not_in_literal.
Defined.

Lemma bind_ret_l {A B} (a : A) (f : A -> M B) : bind (ret a) f = f a.
Proof. unfold bind, ret. destruct (f a) as (l, c). reflexivity. Qed.

Lemma slice_backwards s i j : j < i -> 0 <= j -> i <= len s -> slice s i j = [].
Proof.
  intros Hji Hj Hi. unfold slice. rewrite !relindex_inside by lia.
  replace (Z.to_nat (j - i)) with 0%nat by lia. reflexivity.
Qed.

(** X4: where a closing brace comes before the first opening one, the
    rule [parse] reads has the whole text before the opening brace as its
    fragment, closing brace included, and an empty body; [parse] then goes
    on right after the closing brace, so that the text between the two
    braces is read a second time, as the fragment of the next rule. *)
Theorem parse_stray_closing_brace :
  forall (depth : nat) (before between rest : jsstring) (result : ParsedCSS),
    ~ In semicolon before -> ~ In braceOpen before -> ~ In braceClose before ->
    ~ In semicolon between -> ~ In braceOpen between ->
    parse (S (S depth))
          (before ++ braceClose :: between ++ braceOpen :: rest) result
    = parse (S depth) (between ++ braceOpen :: rest)
            (result ++ [Rule (trim (before ++ braceClose :: between)) []]).
Proof.
  intros depth before between rest result Hs Ho Hc Hs' Ho'.
  assert (Ha : ~ In semicolon (before ++ braceClose :: between)
               /\ ~ In braceOpen (before ++ braceClose :: between)).
  { split; apply not_in_app; try assumption;
      intros [H | H]; try discriminate H; tauto. }
  replace (before ++ braceClose :: between ++ braceOpen :: rest)
    with ((before ++ braceClose :: between) ++ braceOpen :: rest) at 1
    by (rewrite <- app_assoc; reflexivity).
  rewrite parse_brace by tauto.
  rewrite <- app_assoc. cbn [app].
  rewrite (indexOfChar_at braceClose before _ Hc).
  rewrite slice_backwards, sliceFrom_suffix.
  - rewrite parse_blank by reflexivity. rewrite bind_ret_l. reflexivity.
  - unfold len. rewrite length_app. cbn [List.length]. lia.
  - unfold len. lia.
  - unfold len. rewrite !length_app. cbn [List.length]. rewrite length_app.
    cbn [List.length]. lia.
Qed.

Lemma parse_stray_closing_brace_witness :
  parse 4 (js "x " ++ braceClose :: js " a " ++ braceOpen :: js " b: c }") []
  = parse 3 (js " a " ++ braceOpen :: js " b: c }")
          ([] ++ [Rule (trim (js "x " ++ braceClose :: js " a ")) []]).
Proof.
  apply (parse_stray_closing_brace 2 (js "x ") (js " a ") (js " b: c }") []);
    not_in_literal.
Defined.

(** The body of a nested rule never holds a closing brace. *)
Lemma slice_before s rest i :
  exists a b, s = a ++ slice (s ++ rest) i (len s) ++ b.
Proof.
  unfold slice.
  assert (Hto : relindex (len (s ++ rest)) (len s) = len s).
  { apply relindex_inside. unfold len. rewrite length_app. lia. }
  rewrite Hto.
  set (from := Z.to_nat (relindex (len (s ++ rest)) i)).
  assert (Hfrom : relindex (len (s ++ rest)) i = Z.of_nat from).
  { unfold from. rewrite Z2Nat.id; [reflexivity|].
    unfold relindex. destruct (i <? 0) eqn:E; [lia|].
    apply Z.ltb_ge in E. pose proof (len_nonneg (s ++ rest)). lia. }
  rewrite Hfrom. unfold len.
  replace (Z.to_nat (Z.of_nat (List.length s) - Z.of_nat from))
    with (List.length s - from)%nat by lia.
  destruct (le_lt_dec (List.length s) from) as [Hl | Hl].
  - replace (List.length s - from)%nat with 0%nat by lia.
    exists [], s. reflexivity.
  - exists (firstn from s), [].
    rewrite skipn_app. replace (from - List.length s)%nat with 0%nat by lia.
    cbn [skipn]. rewrite firstn_app.
    rewrite (firstn_all2 (skipn from s)) by (rewrite length_skipn; lia).
    replace (List.length s - from - List.length (skipn from s))%nat with 0%nat
      by (rewrite length_skipn; lia).
    cbn [firstn]. rewrite !app_nil_r. symmetry. apply firstn_skipn.
Qed.

Lemma body_without_close text i :
  ~ In braceClose (slice text i (indexOfChar braceClose text)).
Proof.
  pose proof (findIndex_lower (Z.eqb braceClose) text) as Hl.
  fold (indexOfChar braceClose text) in Hl.
  destruct (Z.eq_dec (indexOfChar braceClose text) (-1)) as [Hm | Hm].
  - intros H. destruct (slice_segment text i (-1)) as (u & v & Eu).
    rewrite Hm in H.
    assert (Hin : In braceClose text)
      by (rewrite Eu; apply in_or_app; right; apply in_or_app; left; exact H).
    pose proof (proj1 (findIndex_none _ _) Hm _ Hin) as E.
    rewrite Z.eqb_refl in E. discriminate.
  - destruct (findIndex_found (Z.eqb braceClose) text)
      as (a & c & b & E & Hi & _ & Ha); [unfold indexOfChar in *; lia|].
    fold (indexOfChar braceClose text) in Hi. rewrite Hi.
    rewrite E at 1. destruct (slice_before a (c :: b) i) as (u & v & Eu).
    intros H. assert (Hin : In braceClose a)
      by (rewrite Eu; apply in_or_app; right; apply in_or_app; left; exact H).
    specialize (Ha _ Hin). rewrite Z.eqb_refl in Ha. discriminate.
Qed.

Lemma parse_declarations_simple depth : forall text result log parsed,
  ~ In braceOpen text -> forallb isSimple result = true ->
  parse depth text result = (log, Normal parsed) -> forallb isSimple parsed = true.
Proof.
  induction depth as [|depth IH]; intros text result log parsed Ho Hr H;
    [discriminate H|].
  assert (Hadd : forall line, forallb isSimple (result ++ [splitProperty line]) = true).
  { intros line. rewrite forallb_app, Hr, splitProperty_parts. reflexivity. }
  destruct (text_shape text) as [text Hb | text Hb Hs _ | a b Hs Ho' | a b _ _].
  - rewrite parse_blank in H by exact Hb. injection H as _ <-. exact Hr.
  - rewrite parse_last in H by assumption.
    apply bind_normal in H as (l1 & u & l2 & _ & H & _). injection H as _ <-.
    apply Hadd.
  - rewrite parse_semicolon in H by assumption.
    apply bind_normal in H as (l1 & u & l2 & _ & H & _).
    apply (IH _ _ _ _) in H; [exact H | | apply Hadd].
    intros Hin. apply Ho. apply in_or_app. right. right. exact Hin.
  - exfalso. apply Ho. apply in_or_app. right. left. reflexivity.
Qed.

Lemma parse_body_simple depth text log parsed :
  ~ In braceClose text ->
  parse depth text [] = (log, Normal parsed) -> forallb isSimple parsed = true.
Proof.
  intros Hc H. destruct (in_dec Z.eq_dec braceOpen text) as [Ho | Ho].
  - apply in_split in Ho as (before & after & ->).
    destruct (parse_open_brace_fails depth before after []) as (l & Hf).
    + intros Hin. apply Hc. apply in_or_app. right. right. exact Hin.
    + rewrite Hf in H. discriminate H.
  - exact (parse_declarations_simple depth text [] log parsed Ho eq_refl H).
Qed.

(** X5: [parse] returns one level of nesting at most: the body of every
    rule it returns holds declarations only.  A body with a brace in it
    never comes back from the inner call. *)
Theorem parse_one_level :
  forall (depth : nat) (text : jsstring) (result : ParsedCSS) log parsed,
    forallb oneLevel result = true ->
    parse depth text result = (log, Normal parsed) ->
    forallb oneLevel parsed = true.
Proof.
  induction depth as [|depth IH]; intros text result log parsed Hr H;
    [discriminate H|].
  assert (Hadd : forall line, forallb oneLevel (result ++ [splitProperty line]) = true).
  { intros line. rewrite forallb_app, Hr, splitProperty_parts. reflexivity. }
  destruct (text_shape text) as [text Hb | text Hb Hs Ho | a b Hs Ho | a b Hs Ho].
  - rewrite parse_blank in H by exact Hb. injection H as _ <-. exact Hr.
  - rewrite parse_last in H by assumption.
    apply bind_normal in H as (l1 & u & l2 & _ & H & _). injection H as _ <-.
    apply Hadd.
  - rewrite parse_semicolon in H by assumption.
    apply bind_normal in H as (l1 & u & l2 & _ & H & _).
    exact (IH _ _ _ _ (Hadd a) H).
  - rewrite parse_brace in H by assumption.
    apply bind_normal in H as (l1 & properties & l2 & Hbody & H & _).
    apply parse_body_simple in Hbody; [|apply body_without_close].
    apply (IH _ _ _ _) in H; [exact H|].
    rewrite forallb_app, Hr. cbn [forallb oneLevel]. rewrite Hbody. reflexivity.
Qed.

Lemma parse_one_level_witness :
  forallb oneLevel [ Decl (js "color") [js "red"];
                     Rule (js ":hover") [Decl (js "color") [js "blue"]] ] = true.
Proof.
  apply (parse_one_level 9 (js "color: red; :hover { color: blue }") [] []).
  - reflexivity.
  - vm_compute. reflexivity.
Defined.

Lemma trimStart_idempotent s : trimStart (trimStart s) = trimStart s.
Proof.
  induction s as [|c s IH]; [reflexivity|]. simpl.
  destruct (isWhiteSpace c) eqn:E; [exact IH|]. simpl. rewrite E. reflexivity.
Qed.

Lemma trimStart_head s c r : trimStart s = c :: r -> isWhiteSpace c = false.
Proof.
  induction s as [|x s IH]; simpl; [discriminate|].
  destruct (isWhiteSpace x) eqn:E; [exact IH|]. intros H. injection H as <- _. exact E.
Qed.

Lemma trim_idempotent s : trim (trim s) = trim s.
Proof.
  unfold trim at 1.
  assert (Hs : trimStart (trim s) = trim s).
  { unfold trim. destruct (trimEnd_prefix (trimStart s)) as (b & E & _).
    destruct (trimEnd (trimStart s)) as [|x u] eqn:Eu; [reflexivity|].
    destruct (trimStart s) as [|c r] eqn:Et; [discriminate E|].
    injection E as <- _. pose proof (trimStart_head _ _ _ Et) as Hc.
    simpl. rewrite Hc. reflexivity. }
  rewrite Hs. unfold trim, trimEnd. rewrite rev_involutive, trimStart_idempotent.
  reflexivity.
Qed.

Lemma trim_keeps_absent (c : Z) s : ~ In c s -> ~ In c (trim s).
Proof.
  intros H Hin. destruct (trim_segment s) as (a & b & E & _). apply H.
  rewrite E. apply in_or_app. right. apply in_or_app. left. exact Hin.
Qed.

Lemma tidyPart_trim s :
  ~ In semicolon s -> ~ In braceOpen s -> tidyPart (trim s).
Proof.
  intros Hs Ho. split; [apply trim_idempotent|].
  split; apply trim_keeps_absent; assumption.
Qed.

Lemma segment_keeps_absent (c : Z) a s b : ~ In c (a ++ s ++ b) -> ~ In c s.
Proof.
  intros H Hin. apply H. apply in_or_app. right. apply in_or_app. left. exact Hin.
Qed.

Lemma tidyNode_splitProperty line :
  ~ In semicolon line -> ~ In braceOpen line -> tidyNode (splitProperty line).
Proof.
  intros Hs Ho. rewrite splitProperty_parts. constructor.
  destruct (split_segments colon line) as ((b & Eh) & Ht).
  pose proof (split_pieces colon line) as Hp.
  inversion Hp as [|? ? Hk Hr]; subst.
  assert (Hpart : forall piece, (exists u v, line = u ++ piece ++ v) ->
                    ~ In colon piece ->
                    tidyPart (trim piece) /\ ~ In colon (trim piece)).
  { intros piece (u & v & E) Hc. split; [|apply trim_keeps_absent; exact Hc].
    apply tidyPart_trim; apply (segment_keeps_absent _ u piece v); rewrite <- E;
      assumption. }
  constructor.
  - apply Hpart; [|exact Hk]. exists [], b. exact Eh.
  - apply Forall_map. rewrite Forall_forall in *. intros piece Hin.
    apply Hpart; [exact (Ht piece Hin) | exact (Hr piece Hin)].
Qed.

(** X6: every name, value and selector fragment [parse] returns is
    trimmed and holds no [';'] and no ['{'], and no part of a declaration
    holds a [':']. *)
Theorem parse_tokens_tidy :
  forall (depth : nat) (text : jsstring) (result : ParsedCSS) log parsed,
    Forall tidyNode result ->
    parse depth text result = (log, Normal parsed) ->
    Forall tidyNode parsed.
Proof.
  induction depth as [|depth IH]; intros text result log parsed Hr H;
    [discriminate H|].
  assert (Hadd : forall n, tidyNode n -> Forall tidyNode (result ++ [n]))
    by (intros n Hn; apply Forall_app; split;
        [exact Hr | constructor; [exact Hn | constructor]]).
  destruct (text_shape text) as [text Hb | text Hb Hs Ho | a b Hs Ho | a b Hs Ho].
  - rewrite parse_blank in H by exact Hb. injection H as _ <-. exact Hr.
  - rewrite parse_last in H by assumption.
    apply bind_normal in H as (l1 & u & l2 & _ & H & _). injection H as _ <-.
    apply Hadd, tidyNode_splitProperty; assumption.
  - rewrite parse_semicolon in H by assumption.
    apply bind_normal in H as (l1 & u & l2 & _ & H & _).
    apply (IH _ _ _ _) in H; [exact H|].
    apply Hadd, tidyNode_splitProperty; assumption.
  - rewrite parse_brace in H by assumption.
    apply bind_normal in H as (l1 & properties & l2 & Hbody & H & _).
    apply (IH _ _ _ _ (Forall_nil _)) in Hbody.
    apply (IH _ _ _ _) in H; [exact H|].
    apply Hadd. constructor; [apply tidyPart_trim; assumption | exact Hbody].
Qed.

Lemma parse_tokens_tidy_witness :
  Forall tidyNode [ Decl (js "color") [js "red"];
                    Rule (js ":hover") [Decl (js "color") [js "blue"]] ].
Proof.
  apply (parse_tokens_tidy 9 (js " color : red ; :hover { color: blue } ") [] []).
  - constructor.
  - vm_compute. reflexivity.
Defined.

Lemma trimStart_space s : trimStart (32 :: s) = trimStart s.
Proof. reflexivity. Qed.

Lemma trim_space s : trim (32 :: s) = trim s.
Proof. reflexivity. Qed.

Lemma colon_not_blank : isWhiteSpace colon = false.
Proof. reflexivity. Qed.

Lemma stringifyProperties_cons tuple tuple' properties :
  stringifyProperties (tuple :: tuple' :: properties)
  = joinTuple tuple ++ semicolon :: 32 :: stringifyProperties (tuple' :: properties).
Proof. reflexivity. Qed.

Lemma plain_line (lead key value : jsstring) :
  (lead = [] \/ lead = [32]) -> plainPart key -> plainPart value ->
  let line := lead ++ key ++ colon :: 32 :: value in
  ~ In semicolon line /\ ~ In braceOpen line
  /\ splitProperty line = Decl key [value]
  /\ malformed line = false.
Proof.
  intros Hl (Hk & Hks & Hkc & Hko) (Hv & Hvs & Hvc & Hvo) line.
  assert (Hlead : forall c, c <> 32 -> ~ In c lead)
    by (intros c Hc; destruct Hl as [-> | ->]; [intros [] | intros [H | []]; congruence]).
  assert (Habs : forall c, c <> 32 -> c <> colon -> ~ In c key -> ~ In c value ->
                           ~ In c line).
  { intros c H32 Hcol Hck Hcv. unfold line. apply not_in_app; [apply Hlead; exact H32|].
    apply not_in_app; [exact Hck|]. intros [H | [H | H]]; congruence || tauto. }
  assert (Es : split colon line = (lead ++ key, [32 :: value])).
  { unfold line. rewrite app_assoc, split_at.
    - rewrite split_without by (intros [H | H]; [discriminate H | exact (Hvc H)]).
      reflexivity.
    - apply not_in_app; [apply Hlead; discriminate | exact Hkc]. }
  assert (Ep : splitProperty line = Decl key [value]).
  { unfold splitProperty. rewrite Es. cbn [map]. rewrite trim_space, Hv. f_equal.
    destruct Hl as [-> | ->]; [exact Hk | cbn [app]; rewrite trim_space; exact Hk]. }
  split; [apply Habs; (discriminate || assumption)|].
  split; [apply Habs; (discriminate || assumption)|].
  split; [exact Ep|]. unfold malformed. rewrite Ep. reflexivity.
Qed.

Lemma parse_plain_declarations properties :
  Forall plainDeclaration properties ->
  forall (depth : nat) (lead : jsstring) (result : ParsedCSS),
    (lead = [] \/ lead = [32]) -> (List.length properties < depth)%nat ->
    parse depth (lead ++ stringifyProperties properties) result
    = ([], Normal (result ++ properties)).
Proof.
  induction 1 as [|tuple properties (key & value & -> & Hk & Hv) Hp IH];
    intros depth lead result Hl Hd.
  - destruct depth as [|depth]; [simpl in Hd; lia|].
    rewrite parse_blank, app_nil_r; [reflexivity|].
    destruct Hl as [-> | ->]; reflexivity.
  - destruct depth as [|depth]; [simpl in Hd; lia|]. cbn [List.length] in Hd.
    destruct (plain_line lead key value Hl Hk Hv) as (Hs & Ho & Ep & Em).
    unfold malformed in Em. apply negb_false_iff in Em.
    destruct properties as [|tuple' properties].
    + change (stringifyProperties [Decl key [value]]) with (key ++ colon :: 32 :: value).
      rewrite parse_last; [rewrite Em, Ep; reflexivity | | exact Hs | exact Ho].
      apply (trim_not_blank _ colon); [|reflexivity].
      apply in_or_app. right. apply in_or_app. right. left. reflexivity.
    + rewrite stringifyProperties_cons.
      change (joinTuple (Decl key [value])) with (key ++ colon :: 32 :: value).
      replace (lead ++ (key ++ colon :: 32 :: value) ++ semicolon :: 32
                    :: stringifyProperties (tuple' :: properties))
        with ((lead ++ key ++ colon :: 32 :: value) ++ semicolon
              :: ([32] ++ stringifyProperties (tuple' :: properties)))
        by (rewrite <- !app_assoc; reflexivity).
      rewrite parse_semicolon by assumption. rewrite Em, Ep.
      rewrite (IH depth [32] (result ++ [Decl key [value]]));
        [|right; reflexivity | lia].
      cbn. rewrite <- app_assoc. reflexivity.
Qed.

(** X7: [parse] reads back what [stringifyProperties] writes: for
    declarations of a name and a value, both trimmed and free of [';'],
    [':'] and ['{'], parsing their text gives the declarations again and
    logs nothing.  The style the hook leaves on a node is such a text. *)
Theorem parse_stringifyProperties_round_trip :
  forall (depth : nat) (properties : ParsedCSS),
    Forall plainDeclaration properties -> (List.length properties < depth)%nat ->
    parse depth (stringifyProperties properties) [] = ([], Normal properties).
Proof.
  intros depth properties Hp Hd.
  exact (parse_plain_declarations properties Hp depth [] [] (or_introl eq_refl) Hd).
Qed.

Lemma parse_stringifyProperties_round_trip_witness :
  parse 3 (stringifyProperties [ Decl (js "--x") [js "1"];
                                 Decl (js "color") [js "red"] ]) []
  = ([], Normal [ Decl (js "--x") [js "1"]; Decl (js "color") [js "red"] ]).
Proof.
  apply (parse_stringifyProperties_round_trip 3).
  - repeat (apply Forall_cons || apply Forall_nil).
    + exists (js "--x"), (js "1").
      repeat split; (reflexivity || not_in_literal).
    + exists (js "color"), (js "red").
      repeat split; (reflexivity || not_in_literal).
  - vm_compute. lia.
Defined.

End ParserMore.

(** ** Compiler, further *)

Section CompilerMore.

Lemma filter_filter {A} (f g : A -> bool) l :
  filter f (filter g l) = filter (fun x => f x && g x) l.
Proof.
  induction l as [|x l IH]; [reflexivity|]. simpl.
  destruct (g x); simpl; [destruct (f x); rewrite IH; reflexivity|].
  rewrite andb_false_r. exact IH.
Qed.

Lemma filter_skip {A} (f : A -> bool) l1 x l2 :
  f x = false -> filter f (l1 ++ x :: l2) = filter f (l1 ++ l2).
Proof.
  intros H. rewrite !filter_app. simpl. rewrite H. reflexivity.
Qed.

(** X8: a nested rule whose fragment starts with neither ['@'] nor [':']
    leaves no trace: [compile] gives the classes, custom properties and
    rules it gives without it. *)
Theorem compile_drops_unclassified_rule :
  forall (before after : ParsedCSS) (fragment : jsstring) (properties : ParsedCSS),
    isAtRule (Rule fragment properties) = false ->
    isPseudoClassRule (Rule fragment properties) = false ->
    compile (before ++ Rule fragment properties :: after) = compile (before ++ after).
Proof.
  intros before after fragment properties Ha Hp. unfold compile.
  rewrite (filter_skip isSimple) by reflexivity.
  rewrite !filter_filter.
  rewrite (filter_skip (fun x => isAtRule x && isNested x))
    by (rewrite Ha; reflexivity).
  rewrite (filter_skip (fun x => isPseudoClassRule x && isNested x))
    by (rewrite Hp; reflexivity).
  reflexivity.
Qed.

Lemma compile_drops_unclassified_rule_witness :
  compile ([Decl (js "color") [js "red"]]
             ++ Rule (js "p > a") [Decl (js "color") [js "blue"]] :: [])
  = compile ([Decl (js "color") [js "red"]] ++ []).
Proof.
  apply (compile_drops_unclassified_rule [Decl (js "color") [js "red"]] []
           (js "p > a") [Decl (js "color") [js "blue"]]); reflexivity.
Defined.

Lemma flat_map_customProperties_nil {A} (f : A -> CompiledCSS) l :
  (forall x, customProperties (f x) = []) ->
  flat_map customProperties (map f l) = [].
Proof.
  intros H. induction l as [|x l IH]; [reflexivity|]. simpl. rewrite H. exact IH.
Qed.

(** X9: the custom properties [compile] returns are the top-level
    declarations whose name starts with [--], in their order; a custom
    property inside a nested rule is not among them. *)
Theorem compile_customProperties_top_level :
  forall properties : ParsedCSS,
    customProperties (compile properties)
    = filter isCustomProperty (filter isSimple properties).
Proof.
  intros properties. unfold compile.
  rewrite customProperties_fold_merge, flat_map_app.
  rewrite !flat_map_customProperties_nil by reflexivity.
  rewrite !app_nil_r.
  destruct (filter isSimple properties) as [|x l]; reflexivity.
Qed.

Lemma filter_custom_all l :
  forallb isCustomProperty l = true ->
  filter isNormalProperty l = [] /\ filter isCustomProperty l = l.
Proof.
  intros H. split.
  - apply (filter_none isCustomProperty); [|exact H].
    intros x Hx. unfold isNormalProperty. rewrite Hx. reflexivity.
  - apply filter_all. exact H.
Qed.

(** X10: a style of custom properties only still gets a class and a
    rule: the rule body is empty, [<placeholder> {  }], and the class is
    the same for every such style. *)
Theorem compile_custom_only_empty_rule :
  forall properties : ParsedCSS,
    properties <> [] ->
    forallb isSimple properties = true ->
    forallb isCustomProperty properties = true ->
    compile properties
    = {| classes := [js "hw_uT82Y"];
         customProperties := properties;
         rules := [ {| ruleBody := placeholder ++ js " {  }";
                       selector := js ".hw_uT82Y" |} ] |}.
Proof.
  intros properties Hne Hs Hc.
  rewrite (compile_simple properties Hne Hs).
  destruct (filter_custom_all properties Hc) as (-> & ->).
  vm_compute. reflexivity.
Qed.

Lemma compile_custom_only_empty_rule_witness :
  compile [Decl (js "--x") [js "1"]; Decl (js "--y") [js "2"]]
  = {| classes := [js "hw_uT82Y"];
       customProperties := [Decl (js "--x") [js "1"]; Decl (js "--y") [js "2"]];
       rules := [ {| ruleBody := placeholder ++ js " {  }";
                     selector := js ".hw_uT82Y" |} ] |}.
Proof.
  apply (compile_custom_only_empty_rule
           [Decl (js "--x") [js "1"]; Decl (js "--y") [js "2"]]).
  - discriminate.
  - reflexivity.
  - reflexivity.
Defined.

End CompilerMore.

(** ** Stylesheet accumulator, further *)

Section AccumulatorMore.

Lemma eqb_neq (a b : jsstring) : JS.eqb a b = false <-> a <> b.
Proof.
  split.
  - intros H E. apply eqb_eq in E. congruence.
  - intros H. destruct (JS.eqb a b) eqn:E; [|reflexivity].
    apply eqb_eq in E. contradiction.
Qed.

Lemma existsb_eqb s l : existsb (JS.eqb s) l = true <-> In s l.
Proof.
  rewrite existsb_exists. split.
  - intros (x & Hx & E). apply eqb_eq in E. subst. exact Hx.
  - intros H. exists s. split; [exact H | apply eqb_refl].
Qed.

Lemma assocGet_None sheet body :
  assocGet sheet body = None <-> ~ In body (map fst sheet).
Proof.
  induction sheet as [|(k, v) sheet IH]; simpl; [tauto|].
  destruct (JS.eqb k body) eqn:E.
  - apply eqb_eq in E. split; [discriminate | tauto].
  - apply eqb_neq in E. rewrite IH. tauto.
Qed.

Lemma assocGet_app_present sheet tail body v :
  assocGet sheet body = Some v -> assocGet (sheet ++ tail) body = Some v.
Proof.
  induction sheet as [|(k, w) sheet IH]; simpl; [discriminate|].
  destruct (JS.eqb k body); [tauto | exact IH].
Qed.

Lemma assocGet_addToEntry_other sheet body selector body' :
  body' <> body ->
  assocGet (addToEntry sheet body selector) body' = assocGet sheet body'.
Proof.
  intros H. induction sheet as [|(k, v) sheet IH]; simpl; [reflexivity|].
  destruct (JS.eqb k body) eqn:E; simpl.
  - apply eqb_eq in E. subst k.
    assert (E' : JS.eqb body body' = false) by (apply eqb_neq; congruence).
    rewrite E'. reflexivity.
  - destruct (JS.eqb k body'); [reflexivity | exact IH].
Qed.

Lemma assocGet_app_other sheet body selector body' :
  body' <> body ->
  assocGet (sheet ++ [(body, [selector])]) body' = assocGet sheet body'.
Proof.
  intros H. induction sheet as [|(k, v) sheet IH]; simpl.
  - assert (E' : JS.eqb body body' = false) by (apply eqb_neq; congruence).
    rewrite E'. reflexivity.
  - destruct (JS.eqb k body'); [reflexivity | exact IH].
Qed.

Lemma selectorsOf_addRule sheet body selector :
  assocGet (addRule sheet body selector) body
  = Some (setAdd (selectorsOf sheet body) selector).
Proof.
  unfold addRule, selectorsOf. destruct (assocGet sheet body) as [v|] eqn:E.
  - rewrite assocGet_addToEntry, E. reflexivity.
  - rewrite (assocGet_app_absent _ _ _ E). simpl. rewrite eqb_refl. reflexivity.
Qed.

Lemma assocGet_addRule_other sheet body selector body' :
  body' <> body -> assocGet (addRule sheet body selector) body' = assocGet sheet body'.
Proof.
  intros H. unfold addRule. destruct (assocGet sheet body).
  - apply assocGet_addToEntry_other. exact H.
  - apply assocGet_app_other. exact H.
Qed.

Lemma In_setAdd selectors selector x :
  In x (setAdd selectors selector) <-> In x selectors \/ x = selector.
Proof.
  unfold setAdd. destruct (existsb (JS.eqb selector) selectors) eqn:E.
  - apply existsb_eqb in E. split; [tauto | intros [H | ->]; assumption].
  - rewrite in_app_iff. simpl. split; intros [H | H]; auto.
    destruct H as [<- | []]. right. reflexivity.
Qed.

(** X11: after [addRule], the entry of the rule body holds the selectors
    it held and the new one, and the entry of every other rule body is as
    it was. *)
Theorem addRule_lookup :
  forall (sheet : Stylesheet) (body selector : jsstring),
    (exists selectors,
        assocGet (addRule sheet body selector) body = Some selectors
        /\ forall x, In x selectors <-> In x (selectorsOf sheet body) \/ x = selector)
    /\ forall body', body' <> body ->
         assocGet (addRule sheet body selector) body' = assocGet sheet body'.
Proof.
  intros sheet body selector. split.
  - exists (setAdd (selectorsOf sheet body) selector).
    split; [apply selectorsOf_addRule | intros x; apply In_setAdd].
  - intros body' H. apply assocGet_addRule_other. exact H.
Qed.

Lemma addToEntry_extends sheet body selector :
  Forall2 (fun old new => fst new = fst old /\ exists added, snd new = snd old ++ added)
          sheet (addToEntry sheet body selector).
Proof.
  induction sheet as [|(k, v) sheet IH]; simpl; [constructor|].
  assert (Hrefl : forall l : Stylesheet,
             Forall2 (fun old new => fst new = fst old
                                     /\ exists added, snd new = snd old ++ added) l l).
  { induction l as [|e l IHl]; constructor; [|exact IHl].
    split; [reflexivity | exists []; symmetry; apply app_nil_r]. }
  destruct (JS.eqb k body).
  - constructor; [|apply Hrefl]. split; [reflexivity|]. cbn [snd]. unfold setAdd.
    destruct (existsb (JS.eqb selector) v);
      [exists []; symmetry; apply app_nil_r | exists [selector]; reflexivity].
  - constructor; [|exact IH]. split; [reflexivity | exists []; symmetry; apply app_nil_r].
Qed.

(** X12: [addRule] keeps the order of first insertion: the rule bodies
    stay in place, a new one going last, and every selector set keeps its
    members in place, a new one going last. *)
Theorem addRule_insertion_order :
  forall (sheet : Stylesheet) (body selector : jsstring),
    map fst (addRule sheet body selector)
    = map fst sheet ++ (if existsb (JS.eqb body) (map fst sheet) then [] else [body])
    /\ Forall2 (fun old new =>
                  fst new = fst old /\ exists added, snd new = snd old ++ added)
               sheet (firstn (List.length sheet) (addRule sheet body selector)).
Proof.
  intros sheet body selector. unfold addRule.
  destruct (assocGet sheet body) as [v|] eqn:E.
  - assert (Hin : existsb (JS.eqb body) (map fst sheet) = true).
    { apply existsb_eqb. destruct (in_dec (list_eq_dec Z.eq_dec) body (map fst sheet))
        as [H | H]; [exact H|]. apply assocGet_None in H. congruence. }
    rewrite Hin, app_nil_r. split; [apply addToEntry_keys|].
    rewrite firstn_all2; [apply addToEntry_extends|].
    rewrite <- (length_map fst), addToEntry_keys, length_map. lia.
  - assert (Hin : existsb (JS.eqb body) (map fst sheet) = false).
    { destruct (existsb (JS.eqb body) (map fst sheet)) eqn:Ex; [|reflexivity].
      apply existsb_eqb in Ex. apply assocGet_None in E. contradiction. }
    rewrite Hin, map_app. split; [reflexivity|].
    rewrite firstn_app, Nat.sub_diag, firstn_all. cbn [firstn]. rewrite app_nil_r.
    clear. induction sheet as [|e l IHl]; constructor; [|exact IHl].
    split; [reflexivity | exists []; symmetry; apply app_nil_r].
Qed.

Lemma setAdd_NoDup selectors selector :
  NoDup selectors -> NoDup (setAdd selectors selector).
Proof.
  intros H. unfold setAdd. destruct (existsb (JS.eqb selector) selectors) eqn:E;
    [exact H|].
  assert (Hn : ~ In selector selectors)
    by (intros Hin; apply existsb_eqb in Hin; congruence).
  clear E. induction H as [|x l Hx Hl IH]; simpl.
  - constructor; [intros [] | constructor].
  - constructor.
    + rewrite in_app_iff. simpl. intros [Hin | [-> | []]]; [exact (Hx Hin)|].
      apply Hn. left. reflexivity.
    + apply IH. intros Hin. apply Hn. right. exact Hin.
Qed.

Lemma addToEntry_sets sheet body selector :
  Forall (fun entry => NoDup (snd entry)) sheet ->
  Forall (fun entry => NoDup (snd entry)) (addToEntry sheet body selector).
Proof.
  induction 1 as [|(k, v) sheet Hv Hs IH]; simpl; [constructor|].
  destruct (JS.eqb k body); constructor; try assumption.
  apply setAdd_NoDup. exact Hv.
Qed.

(** X13: [addRule] keeps the stylesheet a map of sets: no rule body is
    the key of two entries and no selector is twice in a set. *)
Theorem addRule_keeps_wellFormed :
  forall (sheet : Stylesheet) (body selector : jsstring),
    wellFormed sheet -> wellFormed (addRule sheet body selector).
Proof.
  intros sheet body selector (Hk & Hs). unfold wellFormed, addRule.
  destruct (assocGet sheet body) as [v|] eqn:E.
  - rewrite addToEntry_keys. split; [exact Hk | apply addToEntry_sets; exact Hs].
  - apply assocGet_None in E. split.
    + rewrite map_app. simpl. clear Hs. induction sheet as [|(k, w) sheet IH]; simpl.
      * constructor; [intros [] | constructor].
      * inversion Hk as [|? ? Hx Hl]; subst. simpl in E. constructor.
        -- rewrite in_app_iff. simpl. intros [Hin | [Hin | []]]; [exact (Hx Hin)|].
           apply E. left. symmetry. exact Hin.
        -- apply IH; [exact Hl|]. intros Hin. apply E. right. exact Hin.
    + apply Forall_app. split; [exact Hs|]. constructor; [|constructor].
      simpl. constructor; [intros [] | constructor].
Qed.

Lemma addRule_keeps_wellFormed_witness :
  wellFormed (addRule [ (js "a", [js ".x"]) ] (js "a") (js ".y")).
Proof.
  apply (addRule_keeps_wellFormed [ (js "a", [js ".x"]) ] (js "a") (js ".y")).
  split.
  - apply NoDup_cons; [intros [] | apply NoDup_nil].
  - apply Forall_cons; [|apply Forall_nil].
    apply NoDup_cons; [intros [] | apply NoDup_nil].
Defined.

Lemma present_addRule sheet body selector :
  present (addRule sheet body selector) body selector = true.
Proof.
  unfold present, selectorsOf. rewrite selectorsOf_addRule. apply setAdd_member.
Qed.

Lemma present_kept sheet body selector body' selector' :
  present sheet body selector = true ->
  present (addRule sheet body' selector') body selector = true.
Proof.
  unfold present. intros H. apply existsb_eqb in H. apply existsb_eqb.
  destruct (list_eq_dec Z.eq_dec body body') as [-> | Hne].
  - unfold selectorsOf at 1. rewrite selectorsOf_addRule. apply In_setAdd. left. exact H.
  - unfold selectorsOf in *. rewrite assocGet_addRule_other by exact Hne. exact H.
Qed.

Lemma addToEntry_present sheet body selector :
  present sheet body selector = true -> addToEntry sheet body selector = sheet.
Proof.
  unfold present, selectorsOf.
  induction sheet as [|(k, v) sheet IH]; simpl; [reflexivity|].
  destruct (JS.eqb k body).
  - intros H. unfold setAdd. rewrite H. reflexivity.
  - intros H. rewrite (IH H). reflexivity.
Qed.

Lemma addRule_present sheet body selector :
  present sheet body selector = true -> addRule sheet body selector = sheet.
Proof.
  intros H. unfold addRule. destruct (assocGet sheet body) eqn:E.
  - apply addToEntry_present. exact H.
  - unfold present, selectorsOf in H. rewrite E in H. discriminate H.
Qed.

Lemma addRules_cons r rules sheet :
  addRules (r :: rules) sheet = addRules rules (addRule sheet (ruleBody r) (selector r)).
Proof. reflexivity. Qed.

Lemma present_addRules rules : forall sheet body selector,
  present sheet body selector = true ->
  present (addRules rules sheet) body selector = true.
Proof.
  induction rules as [|r rules IH]; intros sheet body selector H; [exact H|].
  rewrite addRules_cons. apply IH, present_kept. exact H.
Qed.

Lemma addRules_all_present rules : forall sheet,
  forallb (fun r => present (addRules rules sheet) (ruleBody r) (selector r)) rules = true.
Proof.
  induction rules as [|r rules IH]; intros sheet; [reflexivity|].
  rewrite addRules_cons. cbn [forallb]. rewrite IH, andb_true_r.
  apply present_addRules, present_addRule.
Qed.

Lemma addRules_present rules : forall sheet,
  forallb (fun r => present sheet (ruleBody r) (selector r)) rules = true ->
  addRules rules sheet = sheet.
Proof.
  induction rules as [|r rules IH]; intros sheet H; [reflexivity|].
  cbn [forallb] in H. apply andb_true_iff in H as (Hr & Hrs).
  rewrite addRules_cons, (addRule_present _ _ _ Hr). exact (IH sheet Hrs).
Qed.

Lemma addRules_twice rules sheet :
  addRules rules (addRules rules sheet) = addRules rules sheet.
Proof. apply addRules_present, addRules_all_present. Qed.

(** X14: a second node with the style text of a first one adds nothing
    to the stylesheet the first one left: the hook logs the same and
    returns that stylesheet unchanged. *)
Theorem hook_same_style_keeps_stylesheet :
  forall (depth : nat) (v1 v2 : vnode) (text : jsstring) (sheet : Stylesheet)
         log v1' sheet1,
    style v1 = StyleString text -> style v2 = StyleString text ->
    hook depth v1 sheet = (log, Normal (v1', sheet1)) ->
    exists v2', hook depth v2 sheet1 = (log, Normal (v2', sheet1)).
Proof.
  intros depth v1 v2 text sheet log v1' sheet1 H1 H2 H. unfold hook in *.
  rewrite H1 in H. rewrite H2.
  destruct (parse depth text []) as (l, [parsed | e]); [|discriminate H].
  cbn in H. injection H as <- _ <-. cbn. rewrite addRules_twice.
  eexists. reflexivity.
Qed.

Lemma hook_same_style_keeps_stylesheet_witness :
  exists v2',
    hook 9 {| vtype := js "p"; class := Some (js "note");
              style := StyleString (js "color: red; :hover { color: blue }");
              others := [] |}
         [ (placeholder ++ js " { color: red }", [js ".hw_CTY41"]);
           (placeholder ++ js " { color: blue }", [js ".hw_Qfa8t:hover"]) ]
    = ([], Normal (v2',
                   [ (placeholder ++ js " { color: red }", [js ".hw_CTY41"]);
                     (placeholder ++ js " { color: blue }", [js ".hw_Qfa8t:hover"]) ])).
Proof.
  eapply (hook_same_style_keeps_stylesheet 9
            {| vtype := js "div"; class := None;
               style := StyleString (js "color: red; :hover { color: blue }");
               others := [] |}
            _ (js "color: red; :hover { color: blue }") []).
  - reflexivity.
  - reflexivity.
  - vm_compute. reflexivity.
Defined.

End AccumulatorMore.

(** ** Serialization, further *)

Section SerializationMore.

Lemma getSubstitution_cons matched before after c r :
  ((c =? dollar) && match r with c' :: _ => isPatternChar c' | [] => false end) = false ->
  getSubstitution matched before after (c :: r)
  = c :: getSubstitution matched before after r.
Proof.
  intros H. destruct (c =? dollar) eqn:Ec.
  - apply Z.eqb_eq in Ec. subst c. destruct r as [|c' r]; [reflexivity|].
    cbn [andb] in H. unfold isPatternChar in H.
    apply orb_false_iff in H as (H & H4). apply orb_false_iff in H as (H & H3).
    apply orb_false_iff in H as (H1 & H2).
    change (getSubstitution matched before after (dollar :: c' :: r))
      with (if c' =? 36 then 36 :: getSubstitution matched before after r
            else if c' =? 38 then matched ++ getSubstitution matched before after r
            else if c' =? 96 then before ++ getSubstitution matched before after r
            else if c' =? 39 then after ++ getSubstitution matched before after r
            else 36 :: getSubstitution matched before after (c' :: r)).
    rewrite H1, H2, H3, H4. reflexivity.
  - apply Z.eqb_neq in Ec. unfold dollar in Ec.
    destruct c as [|p|p]; try reflexivity.
    do 6 (destruct p as [p|p|]; try reflexivity). congruence.
Qed.

Lemma getSubstitution_literal matched before after replacement :
  hasPattern replacement = false ->
  getSubstitution matched before after replacement = replacement.
Proof.
  induction replacement as [|c r IH]; intros H; [reflexivity|].
  cbn [hasPattern] in H. apply orb_false_iff in H as (Hc & Hr).
  rewrite (getSubstitution_cons _ _ _ _ _ Hc), (IH Hr). reflexivity.
Qed.

Lemma hasPattern_app a b :
  hasPattern a = false -> hasPattern b = false ->
  match b with c :: _ => isPatternChar c | [] => false end = false ->
  hasPattern (a ++ b) = false.
Proof.
  intros Ha Hb Hh. induction a as [|c a IH]; [exact Hb|].
  cbn [hasPattern] in Ha. apply orb_false_iff in Ha as (Hc & Ha).
  cbn [app hasPattern]. rewrite (IH Ha), orb_false_r.
  destruct a as [|c' a]; [|exact Hc].
  cbn [app]. rewrite Hh. apply andb_false_r.
Qed.

Lemma hasPattern_join selectors :
  forallb (fun s => negb (hasPattern s)) selectors = true ->
  hasPattern (join (js ", ") selectors) = false.
Proof.
  induction selectors as [|s selectors IH]; intros H; [reflexivity|].
  cbn [forallb] in H. apply andb_true_iff in H as (Hs & Hr).
  apply negb_true_iff in Hs. destruct selectors as [|s' selectors]; [exact Hs|].
  change (join (js ", ") (s :: s' :: selectors))
    with (s ++ 44 :: 32 :: join (js ", ") (s' :: selectors)).
  apply hasPattern_app; [exact Hs | | reflexivity].
  specialize (IH Hr). cbn [hasPattern]. cbn [andb orb].
  change (44 =? dollar) with false. change (32 =? dollar) with false.
  exact IH.
Qed.

(** X15: where no ['$'] of a selector is followed by [$], [&], [`] or
    ['], [stringifyStylesheet] puts the selectors of each entry, joined by
    [", "], in the place of the first placeholder of its rule body as they
    are, and joins the rules by a newline, in the order of the entries. *)
Theorem stringifyStylesheet_literal :
  forall sheet : Stylesheet,
    forallb (fun entry => forallb (fun s => negb (hasPattern s)) (snd entry)) sheet = true ->
    stringifyStylesheet sheet = serialize_reference sheet.
Proof.
  intros sheet H. unfold stringifyStylesheet, serialize_reference. f_equal.
  apply map_ext_in. intros (body, selectors) Hin.
  rewrite forallb_forall in H. specialize (H _ Hin). cbn [snd] in H.
  unfold replace, substitute. destruct (indexOf placeholder body); [|reflexivity].
  rewrite getSubstitution_literal by (apply hasPattern_join; exact H). reflexivity.
Qed.

Lemma stringifyStylesheet_literal_witness :
  stringifyStylesheet
    [ (placeholder ++ js " { color: red }", [js ".hw_abcde:not([href$=x])"; js ".b"]) ]
  = serialize_reference
      [ (placeholder ++ js " { color: red }", [js ".hw_abcde:not([href$=x])"; js ".b"]) ].
Proof.
  apply (stringifyStylesheet_literal
           [ (placeholder ++ js " { color: red }",
              [js ".hw_abcde:not([href$=x])"; js ".b"]) ]).
  reflexivity.
Defined.

End SerializationMore.

(** ** Per-node hook, further *)

Section HookMore.







Lemma hook_string depth v sheet text log v' sheet' :
  style v = StyleString text ->
  hook depth v sheet = (log, Normal (v', sheet')) ->
  exists parsed,
    parse depth text [] = (log, Normal parsed)
    /\ sheet' = addRules (rules (compile parsed)) sheet
    /\ v' = (let v1 := fold_left applyClass (classes (compile parsed)) v in
             if 0 <? Z.of_nat (List.length (customProperties (compile parsed)))
             then setStyle v1 (StyleString
                                 (stringifyProperties (customProperties (compile parsed))))
             else setStyle v1 StyleUndefined).
Proof.
  intros Hs H. unfold hook in H. rewrite Hs in H.
  destruct (parse depth text []) as (l, [parsed | e]); [|discriminate H].
  cbn [bind ret] in H. rewrite app_nil_r in H. injection H as <- <- <-.
  exists parsed. repeat split.
Qed.



(** X17: the style the hook leaves on the node holds the top-level
    custom properties only, written as [name: value] and joined by ["; "];
    where there is none the style is removed. *)
Theorem hook_residual_style :
  forall (depth : nat) (v : vnode) (sheet : Stylesheet) (text : jsstring)
         log v' sheet',
    style v = StyleString text ->
    hook depth v sheet = (log, Normal (v', sheet')) ->
    exists parsed,
      parse depth text [] = (log, Normal parsed)
      /\ style v' = match filter isCustomProperty (filter isSimple parsed) with
                    | [] => StyleUndefined
                    | custom => StyleString (stringifyProperties custom)
                    end.
Proof.
  intros depth v sheet text log v' sheet' Hs H.
  destruct (hook_string _ _ _ _ _ _ _ Hs H) as (parsed & Hp & _ & ->).
  exists parsed. split; [exact Hp|]. cbv zeta.
  assert (Hc : customProperties (compile parsed)
               = filter isCustomProperty (filter isSimple parsed)).
  { unfold compile.
    rewrite customProperties_fold_merge, flat_map_app.
    rewrite !flat_map_customProperties_nil by reflexivity.
    rewrite !app_nil_r.
    destruct (filter isSimple parsed); reflexivity. }
  rewrite Hc.
  destruct (filter isCustomProperty (filter isSimple parsed)); reflexivity.
Qed.

Lemma hook_residual_style_witness :
  exists parsed,
    parse 9 (js "color: red; --x: 1") [] = ([], Normal parsed)
    /\ StyleString (js "--x: 1")
       = match filter isCustomProperty (filter isSimple parsed) with
         | [] => StyleUndefined
         | custom => StyleString (stringifyProperties custom)
         end.
Proof.
  apply (hook_residual_style 9
           {| vtype := js "div"; class := Some (js "box");
              style := StyleString (js "color: red; --x: 1"); others := [] |}
           [] (js "color: red; --x: 1") []
           {| vtype := js "div"; class := Some (js "box hw_CTY41");
              style := StyleString (js "--x: 1"); others := [] |}
           [ (placeholder ++ js " { color: red }", [js ".hw_CTY41"]) ]).
  - reflexivity.
  - vm_compute. reflexivity.
Defined.

(** X18: the hook throws only when the style is a string on which
    [parse] uses up the stack, and what it throws is that [RangeError]. *)
Theorem hook_throws_only_RangeError :
  forall (depth : nat) (v : vnode) (sheet : Stylesheet) log e,
    hook depth v sheet = (log, Throw e) ->
    e = RangeError
    /\ exists text, style v = StyleString text
                    /\ parse depth text [] = (log, Throw RangeError).
Proof.
  intros depth v sheet log e H. unfold hook in H.
  destruct (style v) as [|text|typeofStyle]; try discriminate H.
  destruct (parse depth text []) as (l, [parsed | e']) eqn:Ep; [discriminate H|].
  cbn [bind] in H. injection H as <- <-.
  pose proof (parse_throws_RangeError _ _ _ _ _ Ep). subst e'.
  split; [reflexivity|]. exists text. split; [reflexivity | exact Ep].
Qed.

Lemma hook_throws_only_RangeError_witness :
  RangeError = RangeError
  /\ exists text,
       StyleString (js "a { b: c") = StyleString text
       /\ parse 9 text [] = ([], Throw RangeError).
Proof.
  apply (hook_throws_only_RangeError 9
           {| vtype := js "div"; class := None;
              style := StyleString (js "a { b: c"); others := [] |} [] [] RangeError).
  vm_compute. reflexivity.
Defined.

End HookMore.

(** ** Hasher, further *)

Section HasherMore.

Lemma spread_two x y r :
  spread (x :: y :: r)
  = if isLeadSurrogate x && isTrailSurrogate y
    then [x; y] :: spread r else [x] :: spread (y :: r).
Proof. reflexivity. Qed.

(** The iterator does not join a character to one that is not a trail
    surrogate. *)
Lemma spread_app_bounded n : forall s c t,
  (List.length s <= n)%nat -> isTrailSurrogate c = false ->
  spread (s ++ c :: t) = spread s ++ spread (c :: t).
Proof.
  induction n as [|n IH]; intros s c t Hn Hc.
  - destruct s; [reflexivity | simpl in Hn; lia].
  - destruct s as [|x s]; [reflexivity|]. simpl in Hn.
    destruct s as [|y s].
    + change ([x] ++ c :: t) with (x :: c :: t).
      rewrite spread_two, Hc, andb_false_r. reflexivity.
    + change ((x :: y :: s) ++ c :: t) with (x :: y :: (s ++ c :: t)).
      rewrite !spread_two. simpl in Hn.
      destruct (isLeadSurrogate x && isTrailSurrogate y).
      * rewrite (IH s c t) by (assumption || lia). reflexivity.
      * change (y :: s ++ c :: t) with ((y :: s) ++ c :: t).
        rewrite (IH (y :: s) c t) by (assumption || simpl; lia). reflexivity.
Qed.

Lemma lead_not_trail c : isLeadSurrogate c = true -> isTrailSurrogate c = false.
Proof.
  unfold isLeadSurrogate, isTrailSurrogate. intros H.
  apply andb_true_iff in H as (_ & H). apply Z.leb_le in H.
  apply andb_false_iff. left. apply Z.leb_gt. lia.
Qed.

Lemma hashInt_pair s hi lo t :
  isLeadSurrogate hi = true -> isTrailSurrogate lo = true ->
  hashInt (s ++ hi :: lo :: t)
  = fold_left (fun hash char => ushr (hash * 311 + charCodeAt0 char) 0)
              (spread t)
              (ushr (hashInt s * 311 + hi) 0).
Proof.
  intros Hhi Hlo. unfold hashInt.
  rewrite (spread_app_bounded (List.length s)) by (apply lead_not_trail in Hhi; auto).
  rewrite spread_two, Hhi, Hlo. cbn [andb].
  rewrite fold_left_app. reflexivity.
Qed.

(** X19: the second code unit of a surrogate pair does not reach the
    hash: two strings that differ in the trail surrogate of a pair only
    have the same token. *)
Theorem hash_ignores_trail_surrogate :
  forall (s t : jsstring) (hi lo lo' : Z),
    isLeadSurrogate hi = true ->
    isTrailSurrogate lo = true -> isTrailSurrogate lo' = true ->
    hash (s ++ hi :: lo :: t) = hash (s ++ hi :: lo' :: t).
Proof.
  intros s t hi lo lo' Hhi Hlo Hlo'.
  assert (E : hashInt (s ++ hi :: lo :: t) = hashInt (s ++ hi :: lo' :: t))
    by (rewrite !hashInt_pair by assumption; reflexivity).
  unfold hash. rewrite E. reflexivity.
Qed.

Lemma hash_ignores_trail_surrogate_witness :
  hash (js "content: " ++ 0xD83D :: 0xDE00 :: js ";")
  = hash (js "content: " ++ 0xD83D :: 0xDE01 :: js ";").
Proof.
  apply (hash_ignores_trail_surrogate (js "content: ") (js ";") 0xD83D 0xDE00 0xDE01);
    reflexivity.
Defined.

Lemma field_low_bits h offset :
  0 <= offset <= 24 ->
  (h / 2 ^ offset) mod 64 = ((h mod 2 ^ 30) / 2 ^ offset) mod 64.
Proof.
  intros Ho. change 64 with (2 ^ 6).
  rewrite <- !Z.land_ones, <- !Z.shiftr_div_pow2 by lia.
  apply Z.bits_inj'. intros i Hi.
  rewrite !Z.land_spec, !Z.shiftr_spec by lia. rewrite ?Z.land_spec.
  destruct (Z.lt_ge_cases i 6) as [Hlt | Hge].
  - rewrite Z.ones_spec_low by lia. rewrite !andb_true_r.
    rewrite Z.ones_spec_low by lia. rewrite andb_true_r. reflexivity.
  - rewrite (Z.ones_spec_high 6) by lia. rewrite !andb_false_r. reflexivity.
Qed.

(** X20: the token is made of the low 30 bits of the accumulator: two
    strings whose accumulators differ in the two top bits only have the
    same token. *)
Theorem hash_ignores_top_bits :
  forall data data' : jsstring,
    hashInt data mod 2 ^ 30 = hashInt data' mod 2 ^ 30 ->
    hash data = hash data'.
Proof.
  intros data data' H. rewrite !hash_fields. unfold fieldOffsets. cbn [map].
  rewrite (field_low_bits (hashInt data) 0), (field_low_bits (hashInt data) 6),
    (field_low_bits (hashInt data) 12), (field_low_bits (hashInt data) 18),
    (field_low_bits (hashInt data) 24) by lia.
  rewrite (field_low_bits (hashInt data') 0), (field_low_bits (hashInt data') 6),
    (field_low_bits (hashInt data') 12), (field_low_bits (hashInt data') 18),
    (field_low_bits (hashInt data') 24) by lia.
  rewrite H. reflexivity.
Qed.

Lemma hash_ignores_top_bits_witness :
  hashInt [11166; 200; 83] = hashInt (js "AAA") + 2 ^ 30
  /\ hash [11166; 200; 83] = hash (js "AAA").
Proof.
  split; [vm_compute; reflexivity|].
  apply (hash_ignores_top_bits [11166; 200; 83] (js "AAA")).
  vm_compute. reflexivity.
Defined.

End HasherMore.
